(** * elo: schema-driven branch model, scene naming and discovery

    A shallow embedding of the pipeline core of elo.  Two source files
    are embedded: the schema-driven branch model (ShowBranch ...
    TaskBranch, validateSiteInfo, makeDir, spawn) and the older
    hard-coded category model (Category, Program, SceneEnviron).

    Conventions of the embedding.
    - A JavaScript string is a [string]; one [ascii] stands for one code
      unit, so only code units below 256 are represented.
    - An exception is an [exn]; a function that can throw returns [res].
    - Code that reads or writes the file system, or launches a process,
      runs in the state-and-exception monad [M] over a [World].
    - A JavaScript object used as a dictionary is an association list in
      insertion order.  Reading a property that is not an own property
      finds the members every object inherits from Object.prototype
      (see [Object_prototype_keys]); the embedding keeps that case apart
      with [jsprop].
    - [path.join] is embedded for operands that are already normalized
      (no ".", "..", doubled or trailing separators) on a POSIX host. *)

From Stdlib Require Import Bool Arith ZArith Lia List Ascii String.
From Stdlib Require Import Permutation Sorted.
From Stdlib Require Import DecimalString.
Import ListNotations.

Open Scope string_scope.
Open Scope list_scope.

Set Implicit Arguments.

(* ================================================================== *)
(** * Part I: definitions *)
(* ================================================================== *)

(** ** JavaScript strings *)

Definition startsWith (s p : string) : bool := String.prefix p s.

(** [s.substring(a, b)] for [a <= b]; out-of-range indices are clamped
    to the length, as in JavaScript. *)
Definition substring (a b : nat) (s : string) : string :=
  String.substring (Nat.min a b) (Nat.max a b - Nat.min a b) s.

(** [s.substring(a)]. *)
Definition substringFrom (a : nat) (s : string) : string :=
  substring a (String.length s) s.

Definition endsWith (s suf : string) : bool :=
  (String.length suf <=? String.length s)%nat &&
  (String.substring (String.length s - String.length suf)
                    (String.length suf) s =? suf).

(** [s.split(sep)] for a one-character separator; never returns []. *)
Fixpoint split (sep : ascii) (s : string) : list string :=
  match s with
  | EmptyString => [EmptyString]
  | String c s' =>
      if Ascii.eqb c sep then EmptyString :: split sep s'
      else match split sep s' with
           | [] => [String c EmptyString]
           | w :: ws => String c w :: ws
           end
  end.

(** [ws.join(sep)]. *)
Definition join (sep : string) (ws : list string) : string :=
  String.concat sep ws.

(** The code unit of the backslash. *)
Definition backslash : ascii := ascii_of_nat 92.

(** [s.replace] of every "/" by a backslash. *)
Fixpoint replaceSlashes (s : string) : string :=
  match s with
  | EmptyString => EmptyString
  | String c s' =>
      String (if Ascii.eqb c "/" then backslash else c) (replaceSlashes s')
  end.

Fixpoint contains_char (c : ascii) (s : string) : bool :=
  match s with
  | EmptyString => false
  | String d s' => Ascii.eqb d c || contains_char c s'
  end.

(** The default [Array.prototype.sort] on strings and the operators [<]
    and [>] on strings compare code units lexicographically. *)
Definition str_le (a b : string) : bool := String.leb a b.
Definition str_lt (a b : string) : bool := String.ltb a b.

(** The text JavaScript produces for a number in a concatenation. *)
Definition string_of_Z (z : Z) : string :=
  NilEmpty.string_of_int (Z.to_int z).

(** *** parseInt(s, 10)

    Leading white space is skipped, one sign is read, and the longest
    run of decimal digits is the value; no digit at all gives NaN,
    here [None].  Only zero-or-not is ever asked of the result, so the
    mathematical integer stands for the floating-point value. *)

Definition isWhiteSpace (c : ascii) : bool :=
  let n := nat_of_ascii c in
  ((9 <=? n) && (n <=? 13) || (n =? 32) || (n =? 160))%nat.

Definition digitValue (c : ascii) : option Z :=
  let n := nat_of_ascii c in
  if ((48 <=? n) && (n <=? 57))%nat then Some (Z.of_nat (n - 48)) else None.

Fixpoint trimStart (s : string) : string :=
  match s with
  | String c s' => if isWhiteSpace c then trimStart s' else s
  | EmptyString => EmptyString
  end.

(** Reads the digit run at the head of [s]; [acc] is the value so far
    and [seen] tells whether a digit was read. *)
Fixpoint readDigits (s : string) (acc : Z) (seen : bool) : option Z :=
  match s with
  | String c s' =>
      match digitValue c with
      | Some d => readDigits s' (10 * acc + d)%Z true
      | None => if seen then Some acc else None
      end
  | EmptyString => if seen then Some acc else None
  end.

Definition parseInt (s : string) : option Z :=
  match trimStart s with
  | String "-" s' => option_map Z.opp (readDigits s' 0%Z false)
  | String "+" s' => readDigits s' 0%Z false
  | s' => readDigits s' 0%Z false
  end.

(** A text of decimal digits only, and a text of zeros only. *)
Fixpoint allDigits (s : string) : bool :=
  match s with
  | EmptyString => true
  | String c s' =>
      match digitValue c with Some _ => allDigits s' | None => false end
  end.

Fixpoint allZeros (s : string) : bool :=
  match s with
  | EmptyString => true
  | String c s' => Ascii.eqb c "0" && allZeros s'
  end.

(** Truthiness of a parseInt result: NaN and zero are falsy. *)
Definition truthyNumber (r : option Z) : bool :=
  match r with
  | Some z => negb (z =? 0)%Z
  | None => false
  end.

(** ** JavaScript objects as dictionaries *)

(** The property names every plain object inherits. *)
Definition Object_prototype_keys : list string :=
  [ "constructor"; "__defineGetter__"; "__defineSetter__";
    "hasOwnProperty"; "__lookupGetter__"; "__lookupSetter__";
    "isPrototypeOf"; "propertyIsEnumerable"; "toString"; "valueOf";
    "__proto__"; "toLocaleString" ].

Definition inherited (k : string) : bool :=
  existsb (String.eqb k) Object_prototype_keys.

Fixpoint assoc (A : Type) (k : string) (o : list (string * A)) : option A :=
  match o with
  | [] => None
  | (k', v) :: o' => if String.eqb k k' then Some v else assoc k o'
  end.

(** The outcome of [o[k]] on a plain object. *)
Inductive jsprop (A : Type) : Type :=
| Own (a : A)        (* an own property *)
| Inherited          (* a member of Object.prototype: truthy, no fields *)
| Undefined.         (* undefined *)
Arguments Inherited {A}.
Arguments Undefined {A}.

Definition js_get (A : Type) (o : list (string * A)) (k : string) : jsprop A :=
  match assoc k o with
  | Some v => Own v
  | None => if inherited k then Inherited else Undefined
  end.

(** [k in o]. *)
Definition js_in (A : Type) (k : string) (o : list (string * A)) : bool :=
  match js_get o k with
  | Undefined => false
  | _ => true
  end.

(** Replaces the value of an own property, keeping its position. *)
Fixpoint assoc_update (A : Type) (k : string) (f : A -> A)
    (o : list (string * A)) : list (string * A) :=
  match o with
  | [] => []
  | (k', v) :: o' =>
      if String.eqb k k' then (k', f v) :: o'
      else (k', v) :: assoc_update k f o'
  end.

(** [Object.keys(o)]. *)
Definition keys (A : Type) (o : list (string * A)) : list string :=
  map fst o.

(** Insertion sort; the order is total, so the result is the one
    ascending arrangement whatever algorithm the engine uses. *)
Section Sorting.
Variable A : Type.
Variable le : A -> A -> bool.

Fixpoint insert_sorted (x : A) (l : list A) : list A :=
  match l with
  | [] => [x]
  | y :: l' => if le x y then x :: l else y :: insert_sorted x l'
  end.

Fixpoint sort_by (l : list A) : list A :=
  match l with
  | [] => []
  | x :: l' => insert_sorted x (sort_by l')
  end.
End Sorting.

(** [a.sort()] on an array of strings. *)
Definition sort_strings (l : list string) : list string :=
  sort_by str_le l.

(** ** Exceptions and results *)

Inductive exn : Type :=
| Error (message : string)        (* throw Error(message) *)
| Thrown (value : string)         (* throw of a bare string *)
| TypeError (what : string)       (* raised by the JavaScript runtime *)
| SystemError (code : string) (path : string)   (* raised by fs *)
| ChildProcessError (command : string).         (* raised by execFileSync *)

Inductive res (A : Type) : Type :=
| Ok (a : A)
| Throw (e : exn).
Arguments Throw {A} e.

Definition res_bind (A B : Type) (r : res A) (k : A -> res B) : res B :=
  match r with
  | Ok a => k a
  | Throw e => Throw e
  end.

(** ** The file system and the launched processes *)

Inductive node : Type :=
| DirNode (mode : option string)  (* a directory; [None] before any chmod *)
| FileNode                        (* a regular file *)
| OtherNode.                      (* a symbolic link, socket, ... *)

(** Absolute path to node, in the order [readdir] reports entries. *)
Definition FS : Type := list (string * node).

Record Invocation : Type := {
  cmd : string;
  args : list string;
  env : option (list (string * string));  (* the [env] option, if given *)
  detached : bool;                        (* the [detached] option *)
  detach : bool                           (* the [detach] option *)
}.

Inductive launch : Type :=
| Sync (i : Invocation)     (* execFileSync *)
| Async (i : Invocation).   (* spawn *)

Inductive exit_status : Type :=
| Exited (code : Z)
| Killed                    (* ended by a signal *)
| SpawnFailed.

Record World : Type := {
  files : FS;
  launched : list launch
}.

Definition M (A : Type) : Type := World -> res A * World.

Definition ret (A : Type) (a : A) : M A := fun w => (Ok a, w).
Definition throw (A : Type) (e : exn) : M A := fun w => (Throw e, w).
Definition bind (A B : Type) (m : M A) (k : A -> M B) : M B :=
  fun w => match m w with
           | (Ok a, w') => k a w'
           | (Throw e, w') => (Throw e, w')
           end.
Definition lift (A : Type) (r : res A) : M A := fun w => (r, w).
Arguments throw {A} e.

Notation "x <- m ;; k" := (bind m (fun x => k))
  (at level 61, m at next level, right associativity).
Notation "m ;;; k" := (bind m (fun _ => k))
  (at level 61, right associativity).

(** [for (let x of xs) body], stopping at the first exception. *)
Fixpoint forEach (A : Type) (xs : list A) (body : A -> M unit) : M unit :=
  match xs with
  | [] => ret tt
  | x :: xs' => body x ;;; forEach xs' body
  end.

(** *** path *)

Definition path_join (a b : string) : string :=
  if b =? "" then (if a =? "" then "." else a)
  else if a =? "" then b
  else a ++ "/" ++ b.

Definition dirname (p : string) : string :=
  let d := join "/" (removelast (split "/" p)) in
  if d =? "" then (if startsWith p "/" then "/" else ".") else d.

(** *** fs *)

Definition existsSync (p : string) : M bool :=
  fun w => (Ok (match assoc p (files w) with Some _ => true | None => false end), w).

Definition lstatSync (p : string) : M node :=
  fun w => match assoc p (files w) with
           | Some n => (Ok n, w)
           | None => (Throw (SystemError "ENOENT" p), w)
           end.

Definition isFile (n : node) : bool :=
  match n with FileNode => true | _ => false end.
Definition isDirectory (n : node) : bool :=
  match n with DirNode _ => true | _ => false end.

(** The name of [p] inside the directory [d], when [p] is an entry of [d]. *)
Definition child_name (d p : string) : option string :=
  if startsWith p (d ++ "/") then
    let r := substringFrom (String.length d + 1) p in
    if (r =? "") || contains_char "/" r then None else Some r
  else None.

Fixpoint children (d : string) (fs : FS) : list string :=
  match fs with
  | [] => []
  | (p, _) :: fs' =>
      match child_name d p with
      | Some r => r :: children d fs'
      | None => children d fs'
      end
  end.

Definition readdirSync (d : string) : M (list string) :=
  fun w => match assoc d (files w) with
           | Some (DirNode _) => (Ok (children d (files w)), w)
           | Some _ => (Throw (SystemError "ENOTDIR" d), w)
           | None => (Throw (SystemError "ENOENT" d), w)
           end.

(** Not recursive: the parent has to be there. *)
Definition mkdirSync (d : string) : M unit :=
  fun w => match assoc d (files w) with
           | Some _ => (Throw (SystemError "EEXIST" d), w)
           | None =>
               match assoc (dirname d) (files w) with
               | Some (DirNode _) =>
                   (Ok tt, {| files := files w ++ [(d, DirNode None)];
                              launched := launched w |})
               | Some _ => (Throw (SystemError "ENOTDIR" d), w)
               | None => (Throw (SystemError "ENOENT" d), w)
               end
           end.

Fixpoint isOctal (s : string) : bool :=
  match s with
  | EmptyString => true
  | String c s' =>
      let n := nat_of_ascii c in
      ((48 <=? n) && (n <=? 55))%nat && isOctal s'
  end.

Definition set_mode (perm : string) (n : node) : node :=
  match n with
  | DirNode _ => DirNode (Some perm)
  | _ => n
  end.

(** A mode given as a string has to be octal digits. *)
Definition chmodSync (d perm : string) : M unit :=
  fun w => if negb (isOctal perm) || (perm =? "")
           then (Throw (TypeError "ERR_INVALID_ARG_VALUE"), w)
           else match assoc d (files w) with
                | Some _ =>
                    (Ok tt, {| files := assoc_update d (set_mode perm) (files w);
                               launched := launched w |})
                | None => (Throw (SystemError "ENOENT" d), w)
                end.

(** ** The schema (site.json, as typed by the interfaces) *)

Module Dir.
Record t : Type := { Name : string; Perm : string }.
End Dir.

Module BranchInfo.
Record t : Type := {
  Label : string;
  Subdirs : list Dir.t;
  ChildRoot : string
}.
End BranchInfo.

Module PartInfo.
Record t : Type := {
  Label : string;
  Subdirs : list Dir.t;
  ProgramDir : list (string * string)
}.
End PartInfo.

Module Program.
Record t : Type := {
  Name : string;
  Ext : string;
  CreateCmd : list (string * string);   (* process.platform to command *)
  OpenCmd : list (string * string)
}.
End Program.

(** One entry of [categories]: its ["group"], ["unit"] and ["part"]. *)
Module CategoryInfo.
Record t : Type := {
  group : BranchInfo.t;
  unit : BranchInfo.t;
  part : list (string * PartInfo.t)
}.
End CategoryInfo.

Module SiteInfo.
Record t : Type := {
  show : BranchInfo.t;
  category : BranchInfo.t;
  categories : list (string * CategoryInfo.t);
  programs : list (string * Program.t)
}.
End SiteInfo.

(** ** Branches *)

(** The [Branch] interface.  [Subdirs] is [None] where the object holds
    [undefined] there. *)
Module Branch.
Unset Elimination Schemes.
Inductive t : Type :=
  Build (Parent : option t) (Type_ : string) (Name : string) (Dir : string)
        (Subdirs : option (list Dir.t)) (ChildRoot : string).
Set Elimination Schemes.

Definition Parent (b : t) : option t :=
  match b with Build p _ _ _ _ _ => p end.
Definition Type_ (b : t) : string :=
  match b with Build _ ty _ _ _ _ => ty end.
Definition Name (b : t) : string :=
  match b with Build _ _ n _ _ _ => n end.
Definition Dir (b : t) : string :=
  match b with Build _ _ _ d _ _ => d end.
Definition Subdirs (b : t) : option (list Dir.t) :=
  match b with Build _ _ _ _ s _ => s end.
Definition ChildRoot (b : t) : string :=
  match b with Build _ _ _ _ _ c => c end.
End Branch.

(** A part is a branch that also carries [ProgramDir]; [None] where the
    object holds [undefined]. *)
Module PartBranch.
Record t : Type := {
  branch : Branch.t;
  ProgramDir : option (list (string * string))
}.
End PartBranch.

(** A task never assigns [Subdirs] and [ChildRoot]. *)
Module TaskBranch.
Record t : Type := {
  Parent : PartBranch.t;
  Name : string;
  Program : jsprop Program.t;
  Dir : string;
  Versions : list string
}.
End TaskBranch.

(** [getParent]: the nearest proper ancestor of the given type.  The
    message of the error is built from a variable the function does
    not declare; only the fact that it throws is kept. *)
Fixpoint getParent (b : Branch.t) (type : string) : res Branch.t :=
  match b with
  | Branch.Build None _ _ _ _ _ => Throw (Error "branch not found")
  | Branch.Build (Some p) _ _ _ _ _ =>
      if Branch.Type_ p =? type then Ok p else getParent p type
  end.

(** [getParent] called on a task: the first step reaches its part. *)
Definition getParentOfTask (t : TaskBranch.t) (type : string) : res Branch.t :=
  let p := PartBranch.branch (TaskBranch.Parent t) in
  if Branch.Type_ p =? type then Ok p else getParent p type.

(** [compare]: -1, 1 or 0. *)
Definition compare (a b : string) : Z :=
  if str_lt a b then (-1)%Z
  else if str_lt b a then 1%Z
  else 0%Z.

(** *** child_process *)

(** An invocation without options. *)
Definition plain (command : string) (arguments : list string) : Invocation :=
  {| cmd := command; args := arguments; env := None;
     detached := false; detach := false |}.

(** [proc.execFileSync]: runs the program to its end; any outcome but
    exit status 0 is an exception. *)
Definition execFileSync (run : Invocation -> FS -> FS * exit_status)
    (i : Invocation) : M unit :=
  fun w =>
    let (fs', st) := run i (files w) in
    let w' := {| files := fs'; launched := launched w ++ [Sync i] |} in
    match st with
    | Exited 0 => (Ok tt, w')
    | _ => (Throw (ChildProcessError (cmd i)), w')
    end.

(** [proc.spawn]: starts the program and returns. *)
Definition proc_spawn (i : Invocation) : M unit :=
  fun w => (Ok tt, {| files := files w; launched := launched w ++ [Async i] |}).

(** What a spawned child reports, in the order the listeners see it. *)
Inductive child_event : Type :=
| StderrData (data : string)      (* p.stderr "data" *)
| ExitEvent (code : option Z)     (* p "exit"; [None] is a null code *)
| ErrorEvent (err : exn).         (* p "error" *)

(** The variable [stderr] of [spawn] and the calls of [handleError] so
    far. *)
Record listeners : Type := {
  stderr : string;
  handled : list exn
}.

Definition string_of_code (code : option Z) : string :=
  match code with
  | Some z => string_of_Z z
  | None => "null"
  end.

(** [code != 0]. *)
Definition code_nonzero (code : option Z) : bool :=
  match code with
  | Some z => negb (z =? 0)%Z
  | None => true
  end.

(** The three listeners [spawn] registers. *)
Definition on_event (st : listeners) (ev : child_event) : listeners :=
  match ev with
  | StderrData data =>
      {| stderr := stderr st ++ data; handled := handled st |}
  | ExitEvent code =>
      if code_nonzero code then
        let err := Error ("exit with error " ++ string_of_code code
                          ++ ": " ++ stderr st) in
        {| stderr := stderr st; handled := handled st ++ [err] |}
      else st
  | ErrorEvent err =>
      {| stderr := stderr st; handled := handled st ++ [err] |}
  end.

(** The listeners after a whole run of the child. *)
Definition spawn_listeners (events : list child_event) : listeners :=
  fold_left on_event events {| stderr := ""; handled := [] |}.

(** [spawn(cmd, args, opts, handleError)] up to its return. *)
Definition spawn (i : Invocation) : M unit := proc_spawn i.

Notation "x <-- r ;; k" := (res_bind r (fun x => k))
  (at level 61, r at next level, right associativity).

(** ** The schema-driven model *)

(** The module-level variables [siteRoot], [showRoot] and [siteInfo],
    the host ([process.platform], [process.env]) and the behaviour of
    the external programs a synchronous launch runs. *)
Record Globals : Type := {
  siteRoot : string;
  showRoot : string;
  siteInfo : SiteInfo.t;
  platform : string;
  processEnv : list (string * string);
  runCommand : Invocation -> FS -> FS * exit_status
}.

(** [for (let x of xs)] where [xs] may hold [undefined]. *)
Definition forOf (A : Type) (xs : option (list A)) (body : A -> M unit) : M unit :=
  match xs with
  | Some l => forEach l body
  | None => throw (TypeError "undefined is not iterable")
  end.

Section SchemaDriven.
Variable g : Globals.

Definition makeDir (d perm : string) : M unit :=
  mkdirSync d ;;;
  chmodSync d perm ;;;
  if platform g =? "win32" then
    let specialBit := substring 0 1 perm in
    let defaultBits := substring 1 4 perm in
    if (defaultBits =? "777") || (defaultBits =? "775") then
      let user := if specialBit =? "2" then "everyone:(CI)(OI)(F)"
                  else "everyone:(F)" in
      execFileSync (runCommand g)
        (plain "icacls" [replaceSlashes d; "/grant"; user])
    else ret tt
  else ret tt.

Definition ValidCategories : list string :=
  sort_strings (keys (SiteInfo.categories (siteInfo g))).

(** *** ShowBranch *)

Definition ShowBranch (name : string) : Branch.t :=
  let dir := path_join (showRoot g) name in
  let showInfo := SiteInfo.show (siteInfo g) in
  Branch.Build None "show" name dir
    (Some (BranchInfo.Subdirs showInfo))
    (path_join dir (BranchInfo.ChildRoot showInfo)).

Definition CreateShow (name : string) : M unit :=
  let show := ShowBranch name in
  forOf (Branch.Subdirs show) (fun d =>
    makeDir (path_join (Branch.Dir show) (Dir.Name d)) (Dir.Perm d)).

Definition Show (name : string) : M Branch.t :=
  let show := ShowBranch name in
  e <- existsSync (Branch.Dir show) ;;
  if negb e then throw (Error ("show not exists: " ++ name))
  else ret show.

(** *** CategoryBranch *)

Definition CategoryBranch (parent : Branch.t) (name : string) : res Branch.t :=
  if negb (existsb (String.eqb name) ValidCategories) then
    Throw (Error ("invalid category name: " ++ name))
  else
    let dir := path_join (Branch.ChildRoot parent) name in
    let ctgInfo := SiteInfo.category (siteInfo g) in
    Ok (Branch.Build (Some parent) "category" name dir
          (Some (BranchInfo.Subdirs ctgInfo))
          (path_join dir (BranchInfo.ChildRoot ctgInfo))).

(** [ShowBranch.Category]. *)
Definition Category (this : Branch.t) (name : string) : res Branch.t :=
  CategoryBranch this name.

(** The category entry of the schema for the branch under construction:
    [siteInfo["categories"][getParent(this, "category").Name]]. *)
Definition categoryInfoOf (this : Branch.t)
  : res (string * jsprop CategoryInfo.t) :=
  res_bind (getParent this "category") (fun c =>
    let ctg := Branch.Name c in
    match js_get (SiteInfo.categories (siteInfo g)) ctg with
    | Undefined => Throw (Error ("unknown category: " ++ ctg))
    | p => Ok (ctg, p)
    end).

(** *** GroupBranch *)

Definition GroupBranch (parent : Branch.t) (name : string) : res Branch.t :=
  let dir := path_join (Branch.ChildRoot parent) name in
  let this := Branch.Build (Some parent) "group" name dir None "" in
  res_bind (categoryInfoOf this) (fun '(ctg, ctgInfo) =>
    match ctgInfo with
    | Own ci =>
        let grpInfo := CategoryInfo.group ci in
        Ok (Branch.Build (Some parent) "group" name dir
              (Some (BranchInfo.Subdirs grpInfo))
              (path_join dir (BranchInfo.ChildRoot grpInfo)))
    | _ => Throw (TypeError "cannot read property Subdirs of undefined")
    end).

Definition CreateGroup (this : Branch.t) (name : string) : M unit :=
  group <- lift (GroupBranch this name) ;;
  forOf (Branch.Subdirs group) (fun d =>
    makeDir (path_join (Branch.Dir group) (Dir.Name d)) (Dir.Perm d)).

Definition Group (this : Branch.t) (name : string) : M Branch.t :=
  group <- lift (GroupBranch this name) ;;
  e <- existsSync (Branch.Dir group) ;;
  if negb e then throw (Error ("no group: " ++ name))
  else ret group.

(** *** UnitBranch *)

Definition UnitBranch (parent : Branch.t) (name : string) : res Branch.t :=
  let dir := path_join (Branch.ChildRoot parent) name in
  let this := Branch.Build (Some parent) "unit" name dir None "" in
  res_bind (categoryInfoOf this) (fun '(ctg, ctgInfo) =>
    match ctgInfo with
    | Own ci =>
        let unitInfo := CategoryInfo.unit ci in
        Ok (Branch.Build (Some parent) "unit" name dir
              (Some (BranchInfo.Subdirs unitInfo))
              (path_join dir (BranchInfo.ChildRoot unitInfo)))
    | _ => Throw (TypeError "cannot read property Subdirs of undefined")
    end).

Definition CreateUnit (this : Branch.t) (name : string) : M unit :=
  unit <- lift (UnitBranch this name) ;;
  forOf (Branch.Subdirs unit) (fun d =>
    makeDir (path_join (Branch.Dir unit) (Dir.Name d)) (Dir.Perm d)).

Definition Unit (this : Branch.t) (name : string) : M Branch.t :=
  unit <- lift (UnitBranch this name) ;;
  e <- existsSync (Branch.Dir unit) ;;
  if negb e then throw (Error ("no unit: " ++ name))
  else ret unit.

(** *** PartBranch *)

Definition PartBranch_new (parent : Branch.t) (name : string) : res PartBranch.t :=
  let dir := path_join (Branch.ChildRoot parent) name in
  let this := Branch.Build (Some parent) "part" name dir None "" in
  res_bind (categoryInfoOf this) (fun '(ctg, ctgInfo) =>
    match ctgInfo with
    | Own ci =>
        match js_get (CategoryInfo.part ci) name with
        | Own partInfo =>
            Ok {| PartBranch.branch :=
                    Branch.Build (Some parent) "part" name dir
                      (Some (PartInfo.Subdirs partInfo)) dir;
                  PartBranch.ProgramDir := Some (PartInfo.ProgramDir partInfo) |}
        | Inherited =>
            Ok {| PartBranch.branch :=
                    Branch.Build (Some parent) "part" name dir None dir;
                  PartBranch.ProgramDir := None |}
        | Undefined =>
            Throw (Error ("unknown part for " ++ ctg
                          ++ " category: " ++ name))
        end
    | _ => Throw (TypeError "cannot read property of undefined")
    end).

Definition CreatePart (this : Branch.t) (name : string) : M unit :=
  part <- lift (PartBranch_new this name) ;;
  let b := PartBranch.branch part in
  forOf (Branch.Subdirs b) (fun d =>
    makeDir (path_join (Branch.Dir b) (Dir.Name d)) (Dir.Perm d)).

(** [UnitBranch.Part]: no look at the file system. *)
Definition Part (this : Branch.t) (name : string) : res PartBranch.t :=
  PartBranch_new this name.

(** [PartBranch.ProgramAt].  An inherited name passes the [in] test and
    yields a function; both callers hand the result to [path.join] at
    once, which raises the TypeError reported here. *)
Definition ProgramAt (this : PartBranch.t) (prog : string) : res string :=
  match PartBranch.ProgramDir this with
  | None => Throw (TypeError "cannot use in operator on undefined")
  | Some pd =>
      match js_get pd prog with
      | Own d => Ok d
      | Inherited => Throw (TypeError "the path argument must be of type string")
      | Undefined =>
          Throw (Error ("program '" ++ prog ++ "' not defined in "
                        ++ Branch.Name (PartBranch.branch this)))
      end
  end.

(** *** Discovery: PartBranch.Tasks *)

Definition newTaskBranch (parent : PartBranch.t) (name : string)
    (pg : jsprop Program.t) (dir : string) : TaskBranch.t :=
  {| TaskBranch.Parent := parent; TaskBranch.Name := name;
     TaskBranch.Program := pg; TaskBranch.Dir := dir;
     TaskBranch.Versions := [] |}.

(** [t.Versions.push(version)]. *)
Definition pushVersion (version : string) (t : TaskBranch.t) : TaskBranch.t :=
  {| TaskBranch.Parent := TaskBranch.Parent t;
     TaskBranch.Name := TaskBranch.Name t;
     TaskBranch.Program := TaskBranch.Program t;
     TaskBranch.Dir := TaskBranch.Dir t;
     TaskBranch.Versions := TaskBranch.Versions t ++ [version] |}.

(** [t.Versions.sort()]. *)
Definition sortVersions (t : TaskBranch.t) : TaskBranch.t :=
  {| TaskBranch.Parent := TaskBranch.Parent t;
     TaskBranch.Name := TaskBranch.Name t;
     TaskBranch.Program := TaskBranch.Program t;
     TaskBranch.Dir := TaskBranch.Dir t;
     TaskBranch.Versions := sort_strings (TaskBranch.Versions t) |}.

(** The version test of the scan:
    [version.startsWith("v") && parseInt(version.substring(1), 10)]. *)
Definition versionAccepted (version : string) : bool :=
  startsWith version "v" && truthyNumber (parseInt (substringFrom 1 version)).

(** The tests of the loop body on one file name, each [continue] being
    [None]: the extension, the prefix, the split on "_", the version.
    [prefix] is [show + "_" + grp + "_" + unit + "_" + part + "_"]. *)
Definition decodeName (ext prefix f : string) : option (string * string) :=
  if negb (endsWith f ext) then None else
  let f := substring 0 (String.length f - String.length ext) f in
  if negb (startsWith f prefix) then None else
  let f := substring (String.length prefix) (String.length f) f in
  let ws := split "_" f in
  if (List.length ws =? 1)%nat then None else
  let version := last ws "" in
  let task := join "_" (removelast ws) in
  if negb (versionAccepted version) then None else
  Some (task, version).

(** The end of the loop body:
    [if (!taskMap[task]) { taskMap[task] = new TaskBranch(...) }]
    [taskMap[task].Versions.push(version)]. *)
Definition record (this : PartBranch.t) (dir : string) (pg : jsprop Program.t)
    (taskMap : list (string * TaskBranch.t)) (task version : string)
  : res (list (string * TaskBranch.t)) :=
  match js_get taskMap task with
  | Undefined =>
      Ok (taskMap ++ [(task, pushVersion version
                               (newTaskBranch this task pg dir))])
  | Own _ => Ok (assoc_update task (pushVersion version) taskMap)
  | Inherited => Throw (TypeError "cannot read property push of undefined")
  end.

(** The body of the loop over the directory entries; [continue] leaves
    [taskMap] as it is.  [pg] is the program found in the schema. *)
Definition scanFile (this : PartBranch.t) (dir : string) (pg : jsprop Program.t)
    (show grp unit part : string)
    (taskMap : list (string * TaskBranch.t)) (f : string)
  : M (list (string * TaskBranch.t)) :=
  st <- lstatSync (path_join dir f) ;;
  if negb (isFile st) then ret taskMap else
  match pg with
  | Own p =>
      let prefix :=
        (show ++ "_" ++ grp ++ "_" ++ unit ++ "_" ++ part ++ "_")%string in
      match decodeName (Program.Ext p) prefix f with
      | None => ret taskMap
      | Some (task, version) => lift (record this dir pg taskMap task version)
      end
  | _ =>
      (* pg.Ext is undefined *)
      if negb (endsWith f "undefined") then ret taskMap
      else throw (TypeError "cannot read property length of undefined")
  end.

Fixpoint scanFiles (this : PartBranch.t) (dir : string) (pg : jsprop Program.t)
    (show grp unit part : string) (fs : list string)
    (taskMap : list (string * TaskBranch.t))
  : M (list (string * TaskBranch.t)) :=
  match fs with
  | [] => ret taskMap
  | f :: fs' =>
      taskMap' <- scanFile this dir pg show grp unit part taskMap f ;;
      scanFiles this dir pg show grp unit part fs' taskMap'
  end.

(** A property name that is an array index: the canonical decimal text
    of an integer below 2^32 - 1. *)
Definition arrayIndex (k : string) : option Z :=
  match readDigits k 0%Z false with
  | Some z =>
      if (string_of_Z z =? k) && (z <? 4294967295)%Z then Some z else None
  | None => None
  end.

Definition indexOf (k : string) : Z :=
  match arrayIndex k with Some z => z | None => 0%Z end.

Definition isIndexKey (A : Type) (kv : string * A) : bool :=
  match arrayIndex (fst kv) with Some _ => true | None => false end.

(** The order of [for (let k in o)]: array indices ascending, then the
    other names in insertion order. *)
Definition forIn (A : Type) (o : list (string * A)) : list (string * A) :=
  sort_by (fun a b => (indexOf (fst a) <=? indexOf (fst b))%Z)
          (filter (@isIndexKey A) o)
  ++ filter (fun kv => negb (isIndexKey kv)) o.

(** [tasks.sort(function(a, b) { return compare(a.Name, b.Name) })]. *)
Definition sortTasks (tasks : list TaskBranch.t) : list TaskBranch.t :=
  sort_by (fun a b => (compare (TaskBranch.Name a) (TaskBranch.Name b) <=? 0)%Z)
          tasks.

Definition Tasks (this : PartBranch.t) (prog : string) : M (list TaskBranch.t) :=
  let b := PartBranch.branch this in
  progDir <- lift (ProgramAt this prog) ;;
  let dir := path_join (Branch.Dir b) progDir in
  e <- existsSync dir ;;
  if negb e then ret [] else
  match js_get (SiteInfo.programs (siteInfo g)) prog with
  | Undefined => throw (Error ("program not defined: " ++ prog))
  | pg =>
      show <- lift (getParent b "show") ;;
      grp <- lift (getParent b "group") ;;
      unit <- lift (getParent b "unit") ;;
      let part := Branch.Name b in
      files <- readdirSync dir ;;
      taskMap <- scanFiles this dir pg (Branch.Name show) (Branch.Name grp)
                   (Branch.Name unit) part files [] ;;
      ret (sortTasks (map (fun kv => sortVersions (snd kv)) (forIn taskMap)))
  end.

Fixpoint findTask (task : string) (ts : list TaskBranch.t) : option TaskBranch.t :=
  match ts with
  | [] => None
  | t :: ts' => if TaskBranch.Name t =? task then Some t else findTask task ts'
  end.

(** [PartBranch.Task]. *)
Definition Task (this : PartBranch.t) (prog task : string) : M TaskBranch.t :=
  progTasks <- Tasks this prog ;;
  match findTask task progTasks with
  | Some t => ret t
  | None => throw (Error ("no task for " ++ prog ++ " program: " ++ task))
  end.

(** *** TaskBranch *)

(** [this.Versions[this.Versions.length-1]]. *)
Definition lastVersion (versions : list string) : option string :=
  match versions with
  | [] => None
  | _ => Some (last versions "")
  end.

(** The text of a value that may be [undefined], in a concatenation. *)
Definition text (v : option string) : string :=
  match v with
  | Some s => s
  | None => "undefined"
  end.

(** [!ver] for an argument that may be left out. *)
Definition falsy (ver : option string) : bool :=
  match ver with
  | Some s => s =? ""
  | None => true
  end.

(** [TaskBranch.Scene]. *)
Definition TaskBranch_Scene (this : TaskBranch.t) (ver : option string) : res string :=
  let ver := if falsy ver then lastVersion (TaskBranch.Versions this) else ver in
  show <-- getParentOfTask this "show" ;;
  grp <-- getParentOfTask this "group" ;;
  unit <-- getParentOfTask this "unit" ;;
  part <-- getParentOfTask this "part" ;;
  ext <-- match TaskBranch.Program this with
          | Own p => Ok (Program.Ext p)
          | Inherited => Ok (text None)
          | Undefined => Throw (TypeError "cannot read property Ext of undefined")
          end ;;
  let name := (Branch.Name show ++ "_" ++ Branch.Name grp ++ "_"
               ++ Branch.Name unit ++ "_" ++ Branch.Name part ++ "_"
               ++ TaskBranch.Name this ++ "_" ++ text ver ++ ext)%string in
  Ok (path_join (TaskBranch.Dir this) name).

(** [this.Program.CreateCmd[process.platform]] or the same on [OpenCmd],
    with the test that follows and the type [path.join] asks for. *)
Definition commandFor (pg : jsprop Program.t)
    (table : Program.t -> list (string * string)) : res string :=
  match pg with
  | Own p =>
      match js_get (table p) (platform g) with
      | Own c =>
          if c =? "" then Throw (Error ("not supported os: " ++ platform g))
          else Ok c
      | Inherited => Throw (TypeError "the path argument must be of type string")
      | Undefined => Throw (Error ("not supported os: " ++ platform g))
      end
  | _ => Throw (TypeError "cannot read property of undefined")
  end.

(** [TaskBranch.Create]. *)
Definition TaskBranch_Create (this : TaskBranch.t) (ver : option string) : M unit :=
  scene <- lift (TaskBranch_Scene this ver) ;;
  e <- existsSync scene ;;
  if e then throw (Error ("scene already exists: " ++ scene)) else
  createCmd <- lift (commandFor (TaskBranch.Program this) Program.CreateCmd) ;;
  let create := path_join (siteRoot g) createCmd in
  execFileSync (runCommand g) (plain create [scene]).

(** [TaskBranch.Open]; the option given to [spawn] is [detach]. *)
Definition TaskBranch_Open (this : TaskBranch.t) (ver : option string) : M unit :=
  scene <- lift (TaskBranch_Scene this ver) ;;
  openCmd <- lift (commandFor (TaskBranch.Program this) Program.OpenCmd) ;;
  let open := path_join (siteRoot g) openCmd in
  spawn {| cmd := open; args := [scene]; env := None;
           detached := false; detach := true |}.

(** [PartBranch.CreateTask]. *)
Definition CreateTask (this : PartBranch.t) (prog task : string)
    (ver : option string) : M unit :=
  match js_get (SiteInfo.programs (siteInfo g)) prog with
  | Undefined => throw (Error ("program not defined: " ++ prog))
  | pg =>
      let b := PartBranch.branch this in
      progDir <- lift (ProgramAt this prog) ;;
      let dir := path_join (Branch.Dir b) progDir in
      e <- existsSync dir ;;
      (if negb e then
         (* [for (let i in this.Subdirs)]: nothing to do on undefined *)
         forEach (match Branch.Subdirs b with Some l => l | None => [] end)
           (fun d => if Dir.Name d =? progDir then makeDir dir (Dir.Perm d)
                     else ret tt)
       else ret tt) ;;;
      TaskBranch_Create (newTaskBranch this task pg dir) ver
  end.

(** [PartBranch.OpenTask]. *)
Definition OpenTask (this : PartBranch.t) (prog task : string)
    (ver : option string) : M unit :=
  t <- Task this prog task ;;
  TaskBranch_Open t ver.

End SchemaDriven.

(** ** Validation of site.json *)

(** A value as [JSON.parse] returns it. *)
Unset Elimination Schemes.
Inductive json : Type :=
| JNull
| JBool (b : bool)
| JNum (n : Z)
| JStr (s : string)
| JArr (items : list json)
| JObj (members : list (string * json)).
Set Elimination Schemes.

(** [a in obj]: a TypeError on a primitive.  An array has its indices,
    [length] and inherited members, none of which is an attribute name
    the validation asks for; the embedding answers for those names. *)
Definition has_attr (a : string) (obj : json) : res bool :=
  match obj with
  | JObj m => Ok (js_in a m)
  | JArr _ => Ok false
  | _ => Throw (TypeError "cannot use in operator on a primitive")
  end.

(** [obj.a] once [a in obj] holds; [None] is [undefined]. *)
Definition attr (a : string) (obj : json) : option json :=
  match obj with
  | JObj m => assoc a m
  | _ => None
  end.

Fixpoint mustHaveAttrs (label : string) (obj : json) (attrs : list string) : res unit :=
  match attrs with
  | [] => Ok tt
  | a :: attrs' =>
      has <-- has_attr a obj ;;
      if negb has then
        Throw (Error (label ++ ": does not have attribute: " ++ a))
      else mustHaveAttrs label obj attrs'
  end.

Fixpoint chars (s : string) : list json :=
  match s with
  | EmptyString => []
  | String c s' => JStr (String c EmptyString) :: chars s'
  end.

(** The values [for (let x of v)] visits. *)
Definition iterate (v : option json) : res (list json) :=
  match v with
  | Some (JArr l) => Ok l
  | Some (JStr s) => Ok (chars s)
  | _ => Throw (TypeError "value is not iterable")
  end.

Fixpoint index_keys (A : Type) (n : nat) (l : list A) : list (string * A) :=
  match l with
  | [] => []
  | x :: l' => (string_of_Z (Z.of_nat n), x) :: index_keys (S n) l'
  end.

(** The names and values [for (let k in v)] visits with [v[k]]. *)
Definition enumerate (v : option json) : list (string * json) :=
  match v with
  | Some (JObj m) => forIn m
  | Some (JArr l) => index_keys 0 l
  | Some (JStr s) => index_keys 0 (chars s)
  | _ => []
  end.

Fixpoint forEachRes (A : Type) (xs : list A) (body : A -> res unit) : res unit :=
  match xs with
  | [] => Ok tt
  | x :: xs' => res_bind (body x) (fun _ => forEachRes xs' body)
  end.

Notation "r ;;> k" := (res_bind r (fun _ => k))
  (at level 61, right associativity).

(** [validateDir]: a bare string is thrown for a bad permission. *)
Definition validateDir (label : string) (d : json) : res unit :=
  mustHaveAttrs label d ["Name"; "Perm"] ;;>
  match attr "Perm" d with
  | Some (JStr perm) =>
      if negb (String.length perm =? 4)%nat then Throw (Thrown label)
      else Ok tt
  | _ => Throw (Thrown label)
  end.

Definition validateBranchInfo (label : string) (info : option json) : res unit :=
  match info with
  | None => Throw (TypeError "cannot use in operator on undefined")
  | Some info =>
      mustHaveAttrs label info ["Label"; "Subdirs"; "ChildRoot"] ;;>
      ds <-- iterate (attr "Subdirs" info) ;;
      forEachRes ds (validateDir label)
  end.

Definition validatePartInfo (label : string) (info : json) : res unit :=
  mustHaveAttrs label info ["Label"; "Subdirs"; "ProgramDir"].

Definition validateProgram (label : string) (p : json) : res unit :=
  mustHaveAttrs label p ["Name"; "Ext"; "CreateCmd"; "OpenCmd"].

Definition validateSiteInfo (info : json) : res unit :=
  mustHaveAttrs "siteInfo" info ["show"; "category"; "categories"; "programs"] ;;>
  validateBranchInfo "siteInfo[show]" (attr "show" info) ;;>
  validateBranchInfo "siteInfo[category]" (attr "category" info) ;;>
  forEachRes (enumerate (attr "categories" info)) (fun kv =>
    let ctg := fst kv in
    let label := ("siteInfo[categories][" ++ ctg ++ "]")%string in
    let ctgInfo := snd kv in
    mustHaveAttrs label ctgInfo ["group"; "unit"; "part"] ;;>
    validateBranchInfo label (attr "group" ctgInfo) ;;>
    validateBranchInfo label (attr "unit" ctgInfo) ;;>
    forEachRes (enumerate (attr "part" ctgInfo)) (fun pv =>
      let l := (label ++ "[part][" ++ fst pv ++ "]")%string in
      validatePartInfo l (snd pv))) ;;>
  forEachRes (enumerate (attr "programs" info)) (fun kv =>
    let label := ("siteInfo[programs][" ++ fst kv ++ "]")%string in
    validateProgram label (snd kv)).

(** ** The hard-coded category model *)

Module Legacy.
Local Open Scope string_scope.

(** [env[k] = v] on a dictionary. *)
Definition env_set (k v : string) (e : list (string * string))
  : list (string * string) :=
  match assoc k e with
  | Some _ => assoc_update k (fun _ => v) e
  | None => (e ++ [(k, v)])%list
  end.

(** [for (let e in sceneEnv) { env[e] = sceneEnv[e] }]. *)
Definition env_merge (e sceneEnv : list (string * string))
  : list (string * string) :=
  fold_left (fun acc kv => env_set (fst kv) (snd kv) acc) (forIn sceneEnv) e.

Module Program.
Record t : Type := {
  Name : string;
  Dir : string;
  Ext : string;
  CreateScene : string -> list (string * string) -> M unit;
  OpenScene : string -> list (string * string) -> M unit
}.
End Program.

(** The members of [Category] the task operations use. *)
Module Category.
Record t : Type := {
  Name : string;
  groupRoot : string -> string;
  unitRoot : string -> string -> string;
  Parts : list string;
  partRoot : string -> string -> string -> string;
  programs : list (string * list (string * (string -> Program.t)))
}.
End Category.

Section Site.
Variable siteRoot : string.
Variable projectRoot : string.
Variable platform : string.
Variable processEnv : list (string * string).
Variable runCommand : Invocation -> FS -> FS * exit_status.

Definition ProjectDir (prj : string) : string := projectRoot ++ "/" ++ prj.

Definition cloneEnv : list (string * string) := forIn processEnv.

(** [mySpawn] up to its return; its listeners are [on_event]. *)
Definition mySpawn (i : Invocation) : M unit := proc_spawn i.

(** The shape shared by [newMayaAt], [newHoudiniAt] and [newNukeAt]. *)
Definition newProgramAt (name ext : string) (dir : string) : Program.t :=
  {| Program.Name := name;
     Program.Dir := dir;
     Program.Ext := ext;
     Program.CreateScene := fun scene env =>
       let cmd := if platform =? "win32"
                  then siteRoot ++ "/runner/" ++ name ++ "_create.bat"
                  else siteRoot ++ "/runner/" ++ name ++ "_create.sh" in
       execFileSync runCommand
         {| cmd := cmd; args := [scene]; env := Some env;
            detached := false; detach := false |};
     Program.OpenScene := fun scene env =>
       let cmd := if platform =? "win32"
                  then siteRoot ++ "/runner/" ++ name ++ "_open.bat"
                  else siteRoot ++ "/runner/" ++ name ++ "_open.sh" in
       mySpawn {| cmd := cmd; args := [scene]; env := Some env;
                  detached := true; detach := false |} |}.

Definition newMayaAt : string -> Program.t := newProgramAt "maya" ".mb".
Definition newHoudiniAt : string -> Program.t := newProgramAt "houdini" ".hip".
Definition newNukeAt : string -> Program.t := newProgramAt "nuke" ".nk".

Definition SceneName (this : Program.t) (prj grp unit part task : string)
    (ver : option string) : string :=
  Program.Dir this ++ "/" ++ prj ++ "_" ++ grp ++ "_" ++ unit ++ "_" ++ part
  ++ "_" ++ task ++ "_" ++ text ver ++ Program.Ext this.

Definition GroupDir (this : Category.t) (prj grp : string) : string :=
  Category.groupRoot this prj ++ "/" ++ grp.

Definition UnitDir (this : Category.t) (prj grp unit : string) : string :=
  Category.unitRoot this prj grp ++ "/" ++ unit.

Definition PartDir (this : Category.t) (prj grp unit part : string) : string :=
  Category.partRoot this prj grp unit ++ "/" ++ part.

(** The loop of [childDirs] over the entries of [d]. *)
Fixpoint keepDirs (d : string) (fs : list string) (cds : list string)
  : M (list string) :=
  match fs with
  | [] => ret cds
  | f :: fs' =>
      st <- lstatSync (d ++ "/" ++ f) ;;
      keepDirs d fs' (if isDirectory st then (cds ++ [f])%list else cds)
  end.

(** [childDirs]. *)
Definition childDirs (d : string) : M (list string) :=
  e <- existsSync d ;;
  if negb e then throw (Error (d ++ ": no such directory")) else
  fs <- readdirSync d ;;
  keepDirs d fs [].

Definition PartsOf (this : Category.t) (prj grp unit : string) : M (list string) :=
  childDirs (Category.partRoot this prj grp unit).

Definition SceneEnviron (this : Category.t) (prj grp unit part task : string)
  : list (string * string) :=
  [ ("PRJ", prj);
    ("GROUP", grp);
    ("SHOT", unit);
    ("PART", part);
    ("TASK", task);
    ("PRJD", ProjectDir prj);
    ("GROUPD", GroupDir this prj grp);
    ("SHOTD", UnitDir this prj grp unit);
    ("PARTD", PartDir this prj grp unit part) ].

(** [ProgramsOf]: the programs of a part, each made at the part
    directory.  An inherited part name finds a function, which has no
    enumerable member. *)
Definition ProgramsOf (this : Category.t) (prj grp unit part : string)
  : res (list (string * Program.t)) :=
  match js_get (Category.programs this) part with
  | Undefined => Throw (Error ("part not defined in the site: " ++ part))
  | Inherited => Ok []
  | Own pgs =>
      let partDir := PartDir this prj grp unit part in
      Ok (map (fun kv => (fst kv, snd kv partDir)) (forIn pgs))
  end.

Definition CreateTask (this : Category.t) (prj grp unit part task : string)
    (ver : option string) (prog : string) : M Datatypes.unit :=
  parts <- PartsOf this prj grp unit ;;
  if negb (existsb (String.eqb part) parts) then
    throw (Error "no such part")
  else if PartDir this prj grp unit part =? "" then
    throw (Error "no part directory")
  else if task =? "" then throw (Error "no task chosen")
  else if prog =? "" then throw (Error "no program chosen")
  else
    progs <- lift (ProgramsOf this prj grp unit part) ;;
    match js_get progs prog with
    | Own p =>
        let scene := SceneName p prj grp unit part task ver in
        let env := env_merge cloneEnv (SceneEnviron this prj grp unit part task) in
        Program.CreateScene p scene env
    | _ => throw (TypeError "p.SceneName is not a function")
    end.

Definition OpenTask (this : Category.t) (prj grp unit part task prog : string)
    (ver : option string) : M Datatypes.unit :=
  progs <- lift (ProgramsOf this prj grp unit part) ;;
  match js_get progs prog with
  | Own p =>
      let scene := SceneName p prj grp unit part task ver in
      let env := env_merge cloneEnv (SceneEnviron this prj grp unit part task) in
      Program.OpenScene p scene env
  | Inherited => throw (TypeError "p.SceneName is not a function")
  | Undefined => throw (Error ("no program registered for the task: " ++ prog))
  end.

(** The shot category. *)
Definition Shot : Category.t :=
  {| Category.Name := "shot";
     Category.groupRoot := fun prj => ProjectDir prj ++ "/shot";
     Category.unitRoot := fun prj grp => ProjectDir prj ++ "/shot/" ++ grp;
     Category.Parts := ["lit"; "fx"; "comp"];
     Category.partRoot := fun prj grp unit =>
       ProjectDir prj ++ "/shot/" ++ grp ++ "/" ++ unit ++ "/work";
     Category.programs :=
       [ ("lit", [("maya", fun taskDir => newMayaAt taskDir)]);
         ("fx", [("houdini", fun taskDir => newHoudiniAt taskDir);
                 ("nuke", fun taskDir => newNukeAt (taskDir ++ "/precomp"))]);
         ("comp", [("nuke", fun taskDir => newNukeAt taskDir)]) ] |}.

(** The asset category.  Its lookdev and rig parts register the Maya
    program under the name "nuke". *)
Definition Asset : Category.t :=
  {| Category.Name := "asset";
     Category.groupRoot := fun prj => ProjectDir prj ++ "/asset";
     Category.unitRoot := fun prj grp => ProjectDir prj ++ "/asset/" ++ grp;
     Category.Parts := ["model"; "lookdev"; "rig"];
     Category.partRoot := fun prj grp unit =>
       ProjectDir prj ++ "/asset/" ++ grp ++ "/" ++ unit ++ "/work";
     Category.programs :=
       [ ("model", [("maya", fun taskDir => newMayaAt taskDir)]);
         ("lookdev", [("nuke", fun taskDir => newMayaAt taskDir)]);
         ("rig", [("nuke", fun taskDir => newMayaAt taskDir)]) ] |}.

(** The categories of the site, by name. *)
Definition category : list (string * Category.t) :=
  [("shot", Shot); ("asset", Asset)].

End Site.
End Legacy.

(** ** Listings and schema queries of the schema-driven model *)

(** The loop of [listDirs] over the entries of [d]. *)
Fixpoint keepDirectories (d : string) (ents : list string) (dirs : list string)
  : M (list string) :=
  match ents with
  | [] => ret dirs
  | ent :: ents' =>
      st <- lstatSync (path_join d ent) ;;
      keepDirectories d ents' (if isDirectory st then dirs ++ [ent] else dirs)
  end.

(** [listDirs]; the text of its message is not kept. *)
Definition listDirs (d : string) : M (list string) :=
  e <- existsSync d ;;
  if negb e then throw (Error (d ++ ": no such directory")) else
  ents <- readdirSync d ;;
  dirs <- keepDirectories d ents [] ;;
  ret (sort_strings dirs).

(** [for (let x of xs) { children.push(get(x)) }]. *)
Fixpoint collect (A B : Type) (xs : list A) (get : A -> M B) : M (list B) :=
  match xs with
  | [] => ret []
  | x :: xs' =>
      b <- get x ;;
      bs <- collect xs' get ;;
      ret (b :: bs)
  end.

(** The same loop with [try { p = get(x) } catch(err) { continue }]
    around a [get] that does not touch the world. *)
Fixpoint collectCaught (A B : Type) (xs : list A) (get : A -> res B) : list B :=
  match xs with
  | [] => []
  | x :: xs' =>
      match get x with
      | Ok b => b :: collectCaught xs' get
      | Throw _ => collectCaught xs' get
      end
  end.

(** [PartBranch.Programs]; a loop over [undefined] does nothing. *)
Definition Programs (this : PartBranch.t) : list string :=
  sort_strings
    (keys (forIn (match PartBranch.ProgramDir this with
                  | Some pd => pd
                  | None => []
                  end))).

Section SchemaQueries.
Variable g : Globals.

(** [CategoryLabel]: the label of the unit level of the category. *)
Definition CategoryLabel (ctg : string) : res string :=
  match js_get (SiteInfo.categories (siteInfo g)) ctg with
  | Undefined => Throw (Error ("unknown category: " ++ ctg))
  | Own ctgInfo => Ok (BranchInfo.Label (CategoryInfo.unit ctgInfo))
  | Inherited => Throw (TypeError "cannot read property Label of undefined")
  end.

(** [ValidParts]. *)
Definition ValidParts (ctg : string) : res (list string) :=
  match js_get (SiteInfo.categories (siteInfo g)) ctg with
  | Undefined => Throw (Error ("unknown category: " ++ ctg))
  | Own ctgInfo => Ok (sort_strings (keys (forIn (CategoryInfo.part ctgInfo))))
  | Inherited => Ok []
  end.

(** [ValidPrograms]. *)
Definition ValidPrograms (ctg part : string) : res (list string) :=
  match js_get (SiteInfo.categories (siteInfo g)) ctg with
  | Undefined => Throw (Error ("unknown category: " ++ ctg))
  | Inherited =>
      Throw (Error ("no part information for category '" ++ ctg ++ "'"))
  | Own ctgInfo =>
      match js_get (CategoryInfo.part ctgInfo) part with
      | Undefined =>
          Throw (Error ("unknown part '" ++ part ++ "' for category '"
                        ++ ctg ++ "'"))
      | Inherited => Ok []
      | Own p => Ok (sort_strings (keys (forIn (PartInfo.ProgramDir p))))
      end
  end.

(** [ShowBranch.Categories]. *)
Fixpoint categoriesOf (this : Branch.t) (names : list string)
  : res (list Branch.t) :=
  match names with
  | [] => Ok []
  | c :: names' =>
      b <-- Category g this c ;;
      bs <-- categoriesOf this names' ;;
      Ok (b :: bs)
  end.

Definition Categories (this : Branch.t) : res (list Branch.t) :=
  categoriesOf this (ValidCategories g).

(** [CategoryBranch.Groups]. *)
Definition Groups (this : Branch.t) : M (list Branch.t) :=
  ds <- listDirs (Branch.ChildRoot this) ;;
  collect ds (Group g this).

(** [GroupBranch.Units]. *)
Definition Units (this : Branch.t) : M (list Branch.t) :=
  ds <- listDirs (Branch.ChildRoot this) ;;
  collect ds (Unit g this).

(** [UnitBranch.Parts]: a name [Part] refuses is passed over. *)
Definition Parts (this : Branch.t) : M (list PartBranch.t) :=
  ds <- listDirs (Branch.ChildRoot this) ;;
  ret (collectCaught ds (Part g this)).

End SchemaQueries.

(** ** Predicates that state the properties *)

(** [taskMap] holds version [v] under the task name [k]. *)
Definition has (taskMap : list (string * TaskBranch.t)) (k v : string) : Prop :=
  exists t, assoc k taskMap = Some t /\ In v (TaskBranch.Versions t).

(** Every name is entered once, names its own task, and the task has a
    version. *)
Definition wf_taskMap (taskMap : list (string * TaskBranch.t)) : Prop :=
  NoDup (keys taskMap) /\
  forall k t, In (k, t) taskMap ->
              TaskBranch.Name t = k /\ TaskBranch.Versions t <> [].

(** No listed name decodes to a task called like a member of
    Object.prototype ("constructor", "toString", ...). *)
Definition no_inherited_task (ext prefix : string) (fs : list string) : bool :=
  forallb (fun f => match decodeName ext prefix f with
                    | Some (task, _) => negb (inherited task)
                    | None => true
                    end) fs.

(** [creates g c b]: [c] is one of the four Create operations and [b]
    the branch its constructor builds. *)
Inductive creates (g : Globals) : M unit -> Branch.t -> Prop :=
| creates_show (name : string) :
    creates g (CreateShow g name) (ShowBranch g name)
| creates_group (this : Branch.t) (name : string) (b : Branch.t) :
    GroupBranch g this name = Ok b ->
    creates g (CreateGroup g this name) b
| creates_unit (this : Branch.t) (name : string) (b : Branch.t) :
    UnitBranch g this name = Ok b ->
    creates g (CreateUnit g this name) b
| creates_part (this : Branch.t) (name : string) (part : PartBranch.t) :
    PartBranch_new g this name = Ok part ->
    creates g (CreatePart g this name) (PartBranch.branch part).

(** The (task, version) pairs the loop reads off the regular files
    among [names], in their order. *)
Fixpoint decodedPairs (dir ext prefix : string) (fs : FS) (names : list string)
  : list (string * string) :=
  match names with
  | [] => []
  | f :: names' =>
      match assoc (path_join dir f) fs with
      | Some FileNode =>
          match decodeName ext prefix f with
          | Some tv => tv :: decodedPairs dir ext prefix fs names'
          | None => decodedPairs dir ext prefix fs names'
          end
      | _ => decodedPairs dir ext prefix fs names'
      end
  end.

(** The versions paired with the task [k]. *)
Definition versionsIn (k : string) (pairs : list (string * string)) : list string :=
  map snd (filter (fun tv => fst tv =? k) pairs).

(** [taskMap] is what the loop builds from [pairs]: each task holds the
    versions paired with it, in their order, and carries the part, the
    program and the directory of the scan. *)
Definition built (this : PartBranch.t) (dir : string) (pg : jsprop Program.t)
    (pairs : list (string * string))
    (taskMap : list (string * TaskBranch.t)) : Prop :=
  NoDup (keys taskMap) /\
  (forall k, assoc k taskMap = None -> versionsIn k pairs = []) /\
  (forall k t, assoc k taskMap = Some t ->
     t = {| TaskBranch.Parent := this; TaskBranch.Name := k;
            TaskBranch.Program := pg; TaskBranch.Dir := dir;
            TaskBranch.Versions := versionsIn k pairs |} /\
     versionsIn k pairs <> []).

(** What a successful validation has established of an entry of
    [Subdirs]: it has a name, and its permission is a string of four
    characters. *)
Definition dirChecked (d : json) : Prop :=
  has_attr "Name" d = Ok true /\
  exists perm, attr "Perm" d = Some (JStr perm) /\ String.length perm = 4.

(** ... and of the description of a branch level: the three attributes
    are there and every entry of [Subdirs] is as above. *)
Definition branchChecked (info : json) : Prop :=
  (forall a, In a ["Label"; "Subdirs"; "ChildRoot"] -> has_attr a info = Ok true) /\
  exists ds, iterate (attr "Subdirs" info) = Ok ds /\
             forall d, In d ds -> dirChecked d.

(** The entry [name] of [d] is a directory. *)
Definition directoryAt (w : World) (d name : string) : bool :=
  match assoc (path_join d name) (files w) with
  | Some (DirNode _) => true
  | _ => false
  end.

(** The environment a launched program runs in. *)
Definition child_env (g : Globals) (i : Invocation) : list (string * string) :=
  match env i with
  | Some e => e
  | None => processEnv g
  end.

(** Some variable of the environment has the value [v]. *)
Definition mentions (e : list (string * string)) (v : string) : bool :=
  existsb (fun kv => snd kv =? v) e.

(** ** A small site, used to run the definitions *)

Module Example.

Definition dir (n p : string) : Dir.t := {| Dir.Name := n; Dir.Perm := p |}.

Definition nuke : Program.t :=
  {| Program.Name := "nuke"; Program.Ext := ".nk";
     Program.CreateCmd := [("linux", "runner/nuke_create.sh")];
     Program.OpenCmd := [("linux", "runner/nuke_open.sh")] |}.

Definition comp : PartInfo.t :=
  {| PartInfo.Label := "comp";
     PartInfo.Subdirs := [dir "" "2775"; dir "scenes" "2775"];
     PartInfo.ProgramDir := [("nuke", "scenes")] |}.

Definition info : SiteInfo.t :=
  {| SiteInfo.show :=
       {| BranchInfo.Label := "show";
          BranchInfo.Subdirs :=
            [dir "" "0755"; dir "asset" "0755"; dir "shot" "2775"];
          BranchInfo.ChildRoot := "" |};
     SiteInfo.category :=
       {| BranchInfo.Label := "category";
          BranchInfo.Subdirs := [];
          BranchInfo.ChildRoot := "" |};
     SiteInfo.categories :=
       [("shot",
         {| CategoryInfo.group :=
              {| BranchInfo.Label := "sequence";
                 BranchInfo.Subdirs := [dir "" "2775"];
                 BranchInfo.ChildRoot := "" |};
            CategoryInfo.unit :=
              {| BranchInfo.Label := "shot";
                 BranchInfo.Subdirs := [dir "" "2775"; dir "work" "2775"];
                 BranchInfo.ChildRoot := "work" |};
            CategoryInfo.part := [("comp", comp)] |})];
     SiteInfo.programs := [("nuke", nuke)] |}.

Definition g : Globals :=
  {| siteRoot := "/site"; showRoot := "/shows"; siteInfo := info;
     platform := "linux"; processEnv := [("HOME", "/home/artist")];
     runCommand := fun _ fs => (fs, Exited 0) |}.

(** The branches of show sh01, group g1, unit u1, part comp. *)
Definition sh01 : Branch.t := ShowBranch g "sh01".
Definition shot : Branch.t :=
  Branch.Build (Some sh01) "category" "shot" "/shows/sh01/shot" (Some [])
    "/shows/sh01/shot".
Definition g1 : Branch.t :=
  Branch.Build (Some shot) "group" "g1" "/shows/sh01/shot/g1"
    (Some [dir "" "2775"]) "/shows/sh01/shot/g1".
Definition u1 : Branch.t :=
  Branch.Build (Some g1) "unit" "u1" "/shows/sh01/shot/g1/u1"
    (Some [dir "" "2775"; dir "work" "2775"]) "/shows/sh01/shot/g1/u1/work".
Definition compPart : PartBranch.t :=
  {| PartBranch.branch :=
       Branch.Build (Some u1) "part" "comp" "/shows/sh01/shot/g1/u1/work/comp"
         (Some [dir "" "2775"; dir "scenes" "2775"])
         "/shows/sh01/shot/g1/u1/work/comp";
     PartBranch.ProgramDir := Some [("nuke", "scenes")] |}.

Definition scenes : string := "/shows/sh01/shot/g1/u1/work/comp/scenes".

Definition world (fs : FS) : World := {| files := fs; launched := [] |}.

(** Only the show root exists. *)
Definition fresh : World := world [("/shows", DirNode None)].

(** The tree down to the scenes directory of comp. *)
Definition tree : FS :=
  [ ("/shows", DirNode None);
    ("/shows/sh01", DirNode (Some "0755"));
    ("/shows/sh01/asset", DirNode (Some "0755"));
    ("/shows/sh01/shot", DirNode (Some "2775"));
    ("/shows/sh01/shot/g1", DirNode (Some "2775"));
    ("/shows/sh01/shot/g1/u1", DirNode (Some "2775"));
    ("/shows/sh01/shot/g1/u1/work", DirNode (Some "2775"));
    ("/shows/sh01/shot/g1/u1/work/comp", DirNode (Some "2775"));
    (scenes, DirNode (Some "2775")) ].

Definition scene (name : string) : string * node :=
  ((scenes ++ "/" ++ name)%string, FileNode).

(** Scene files of two tasks, in an order a directory may list them. *)
Definition studio : World :=
  world (tree ++
    [ scene "sh01_g1_u1_comp_main_v010.nk";
      scene "sh01_g1_u1_comp_main_v002.nk";
      scene "sh01_g1_u1_comp_layout_fix_v001.nk";
      scene "sh01_g1_u1_comp_main_v000.nk";
      scene "sh01_g1_u1_comp_main_final.nk";
      scene "notes.txt";
      scene "sh01_g1_u1_comp_main_v001.nk" ]).

(** The same entries as [studio], listed in the opposite order. *)
Definition studioReversed : World := world (rev (files studio)).

(** The scenes directory holds one file, a version zero of main. *)
Definition zeroOnly : World :=
  world (tree ++ [ scene "sh01_g1_u1_comp_main_v000.nk" ]).

(** The scenes directory holds versions 3 and 1 of main. *)
Definition twoVersions : World :=
  world (tree ++
    [ scene "sh01_g1_u1_comp_main_v003.nk";
      scene "sh01_g1_u1_comp_main_v001.nk" ]).

Definition mainTask (versions : list string) : TaskBranch.t :=
  {| TaskBranch.Parent := compPart; TaskBranch.Name := "main";
     TaskBranch.Program := Own nuke; TaskBranch.Dir := scenes;
     TaskBranch.Versions := versions |}.

(** The hard-coded model on the same site, with an empty process
    environment. *)
Definition legacyShot : Legacy.Category.t :=
  Legacy.Shot "/site" "/site/project" "linux" (fun _ fs => (fs, Exited 0)).

Definition legacyWorld : World :=
  world [ ("/site/project/prj1/shot/g1/u1/work", DirNode None);
          ("/site/project/prj1/shot/g1/u1/work/comp", DirNode None) ].

(** A site whose show declares no subdirectory. *)
Definition bare : Globals :=
  {| siteRoot := "/site"; showRoot := "/shows";
     siteInfo :=
       {| SiteInfo.show :=
            {| BranchInfo.Label := "show"; BranchInfo.Subdirs := [];
               BranchInfo.ChildRoot := "" |};
          SiteInfo.category := SiteInfo.category info;
          SiteInfo.categories := SiteInfo.categories info;
          SiteInfo.programs := SiteInfo.programs info |};
     platform := "linux"; processEnv := [];
     runCommand := fun _ fs => (fs, Exited 0) |}.

(** The show directory is there, empty. *)
Definition emptyShow : World :=
  world [("/shows", DirNode None); ("/shows/sh01", DirNode None)].

(** A site whose show declares one subdirectory and not itself. *)
Definition assetOnly : Globals :=
  {| siteRoot := "/site"; showRoot := "/shows";
     siteInfo :=
       {| SiteInfo.show :=
            {| BranchInfo.Label := "show";
               BranchInfo.Subdirs := [dir "asset" "0755"];
               BranchInfo.ChildRoot := "" |};
          SiteInfo.category := SiteInfo.category info;
          SiteInfo.categories := SiteInfo.categories info;
          SiteInfo.programs := SiteInfo.programs info |};
     platform := "linux"; processEnv := [];
     runCommand := fun _ fs => (fs, Exited 0) |}.

(** site.json as parsed, with the permission of the one subdirectory
    of the unit and of the part left open. *)
Definition jdir (n p : string) : json :=
  JObj [("Name", JStr n); ("Perm", JStr p)].

Definition jbranch (label : string) (subdirs : list json) (childRoot : string)
  : json :=
  JObj [("Label", JStr label); ("Subdirs", JArr subdirs);
        ("ChildRoot", JStr childRoot)].

Definition siteJson (unitPerm partPerm : string) : json :=
  JObj
    [ ("show", jbranch "show" [jdir "" "0755"; jdir "asset" "0755"] "");
      ("category", jbranch "category" [] "");
      ("categories",
       JObj
         [ ("shot",
            JObj
              [ ("group", jbranch "sequence" [jdir "" "2775"] "");
                ("unit", jbranch "shot" [jdir "work" unitPerm] "work");
                ("part",
                 JObj
                   [ ("comp",
                      JObj [ ("Label", JStr "comp");
                             ("Subdirs", JArr [jdir "scenes" partPerm]);
                             ("ProgramDir", JObj [("nuke", JStr "scenes")]) ])
                   ]) ]) ]);
      ("programs",
       JObj
         [ ("nuke",
            JObj [ ("Name", JStr "nuke"); ("Ext", JStr ".nk");
                   ("CreateCmd", JObj [("linux", JStr "runner/nuke_create.sh")]);
                   ("OpenCmd", JObj [("linux", JStr "runner/nuke_open.sh")]) ])
         ]) ].

(** The work directory of u1 holds the directory of a declared part,
    one of an unknown part, one named like an inherited member, and a
    file. *)
Definition partsWorld : World :=
  world (tree ++
    [ ("/shows/sh01/shot/g1/u1/work/toString", DirNode None);
      ("/shows/sh01/shot/g1/u1/work/paint", DirNode None);
      ("/shows/sh01/shot/g1/u1/work/notes.txt", FileNode) ]).

Definition layoutTask (versions : list string) : TaskBranch.t :=
  {| TaskBranch.Parent := compPart; TaskBranch.Name := "layout_fix";
     TaskBranch.Program := Own nuke; TaskBranch.Dir := scenes;
     TaskBranch.Versions := versions |}.

(** The tasks of [studio]. *)
Definition discovered : list TaskBranch.t :=
  [layoutTask ["v001"]; mainTask ["v001"; "v002"; "v010"]].

End Example.

(* ================================================================== *)
(** * Part II: properties *)
(* ================================================================== *)

(** ** Strings *)

Lemma append_assoc (s1 s2 s3 : string) :
  ((s1 ++ s2) ++ s3 = s1 ++ (s2 ++ s3))%string.
Proof. induction s1; simpl; congruence. Qed.

Lemma append_nil_r (s : string) : (s ++ "")%string = s.
Proof. induction s; simpl; congruence. Qed.

Lemma length_append (s1 s2 : string) :
  String.length (s1 ++ s2) = String.length s1 + String.length s2.
Proof. induction s1; simpl; congruence. Qed.

Lemma prefix_append (p s : string) : String.prefix p (p ++ s) = true.
Proof.
  induction p as [|c p IH]; simpl.
  - now destruct s.
  - destruct (ascii_dec c c); [exact IH | congruence].
Qed.

Lemma prefix_inv (p s : string) :
  String.prefix p s = true -> exists r, s = (p ++ r)%string.
Proof.
  revert s; induction p as [|c p IH]; intros s H.
  - now exists s.
  - destruct s as [|d s]; simpl in H; [discriminate|].
    destruct (ascii_dec c d); [subst|discriminate].
    destruct (IH _ H) as [r ->]. now exists r.
Qed.

Lemma substring_all (s : string) (n : nat) :
  String.length s <= n -> String.substring 0 n s = s.
Proof.
  revert n; induction s as [|c s IH]; intros n H.
  - now destruct n.
  - destruct n; simpl in *; [lia|]. f_equal. apply IH. lia.
Qed.

Lemma substring_take (a b : string) :
  String.substring 0 (String.length a) (a ++ b) = a.
Proof.
  induction a as [|c a IH]; simpl.
  - now destruct b.
  - now rewrite IH.
Qed.

Lemma substring_drop (a b : string) (n : nat) :
  String.length b <= n -> String.substring (String.length a) n (a ++ b) = b.
Proof.
  intros H. induction a as [|c a IH]; simpl.
  - now apply substring_all.
  - exact IH.
Qed.

Lemma endsWith_append (a ext : string) : endsWith (a ++ ext) ext = true.
Proof.
  unfold endsWith. rewrite length_append.
  apply andb_true_intro; split.
  - apply Nat.leb_le. lia.
  - replace (String.length a + String.length ext - String.length ext)
      with (String.length a) by lia.
    rewrite substring_drop by lia. apply String.eqb_refl.
Qed.

Lemma strip_extension (a ext : string) :
  substring 0 (String.length (a ++ ext) - String.length ext) (a ++ ext) = a.
Proof.
  unfold substring. rewrite length_append.
  replace (String.length a + String.length ext - String.length ext)
    with (String.length a) by lia.
  rewrite Nat.min_0_l, Nat.max_0_l, Nat.sub_0_r. apply substring_take.
Qed.

Lemma strip_prefix (p r : string) :
  substring (String.length p) (String.length (p ++ r)) (p ++ r) = r.
Proof.
  unfold substring. rewrite length_append.
  rewrite Nat.min_l, Nat.max_r by lia.
  apply substring_drop. lia.
Qed.

Lemma substringFrom_append (p r : string) :
  substringFrom (String.length p) (p ++ r) = r.
Proof. unfold substringFrom. apply strip_prefix. Qed.

Lemma split_not_nil (sep : ascii) (s : string) : split sep s <> [].
Proof.
  induction s as [|c s IH]; simpl; [discriminate|].
  destruct (Ascii.eqb c sep); [discriminate|].
  destruct (split sep s); discriminate.
Qed.

Lemma split_no_separator (sep : ascii) (v : string) :
  contains_char sep v = false -> split sep v = [v].
Proof.
  induction v as [|c v IH]; simpl; intros H; [reflexivity|].
  apply orb_false_iff in H as [H1 H2]. rewrite H1, (IH H2). reflexivity.
Qed.

(** The last token of [t + sep + v] is [v] when [v] holds no separator. *)
Lemma split_append_last (sep : ascii) (t v : string) :
  contains_char sep v = false ->
  split sep (t ++ String sep v) = split sep t ++ [v].
Proof.
  intros Hv. induction t as [|c t IH]; simpl.
  - rewrite Ascii.eqb_refl, (split_no_separator _ _ Hv). reflexivity.
  - rewrite IH. destruct (Ascii.eqb c sep); [reflexivity|].
    destruct (split sep t) eqn:E; [now apply split_not_nil in E|reflexivity].
Qed.

Lemma join_split (sep : ascii) (t : string) :
  join (String sep "") (split sep t) = t.
Proof.
  unfold join. induction t as [|c t IH]; simpl; [reflexivity|].
  destruct (Ascii.eqb c sep) eqn:E.
  - apply Ascii.eqb_eq in E; subst c.
    destruct (split sep t) eqn:S; [now apply split_not_nil in S|].
    simpl in *. now rewrite IH.
  - destruct (split sep t) as [|w ws] eqn:S; [now apply split_not_nil in S|].
    destruct ws; simpl in *; now rewrite <- IH.
Qed.

Lemma contains_char_append (c : ascii) (a b : string) :
  contains_char c (a ++ b) = contains_char c a || contains_char c b.
Proof.
  induction a as [|d a IH]; simpl; [reflexivity|].
  now rewrite IH, orb_assoc.
Qed.

(** ** The version rule *)

Lemma startsWith_v (version : string) :
  startsWith version "v" = true <-> exists rest, version = String "v" rest.
Proof.
  unfold startsWith. split.
  - intros H. apply prefix_inv in H as [r ->]. now exists r.
  - intros [rest ->]. apply (prefix_append "v" rest).
Qed.

Lemma substringFrom_1 (c : ascii) (rest : string) :
  substringFrom 1 (String c rest) = rest.
Proof. exact (substringFrom_append (String c "") rest). Qed.

Lemma truthyNumber_spec (r : option Z) :
  truthyNumber r = true <-> exists n, r = Some n /\ n <> 0%Z.
Proof.
  destruct r as [z|]; simpl.
  - rewrite negb_true_iff, Z.eqb_neq. split.
    + intros H. now exists z.
    + now intros [n [[= ->] H]].
  - split; [discriminate | now intros [n [H _]]].
Qed.

Lemma versionAccepted_spec (version : string) :
  versionAccepted version = true <->
  exists rest n, version = ("v" ++ rest)%string /\ parseInt rest = Some n /\ n <> 0%Z.
Proof.
  unfold versionAccepted. rewrite andb_true_iff, startsWith_v. split.
  - intros [[rest ->] H]. rewrite substringFrom_1 in H.
    apply truthyNumber_spec in H as [n [H1 H2]]. now exists rest, n.
  - intros [rest [n [-> [H1 H2]]]]. simpl. split; [now exists rest|].
    rewrite substringFrom_1. apply truthyNumber_spec. now exists n.
Qed.

(** A token whose text after "v" opens with a character that is no
    digit, sign or white space has no integer to parse. *)
Lemma parseInt_not_numeric (c : ascii) (rest : string) :
  digitValue c = None -> isWhiteSpace c = false ->
  c <> "+"%char -> c <> "-"%char ->
  parseInt (String c rest) = None.
Proof.
  intros Hd Hw Hp Hm. unfold parseInt. simpl. rewrite Hw.
  assert (E : readDigits (String c rest) 0 false = None)
    by (simpl; now rewrite Hd).
  destruct c as [[] [] [] [] [] [] [] []]; try exact E; congruence.
Qed.

Lemma digitValue_range (c : ascii) (d : Z) :
  digitValue c = Some d ->
  (0 <= d <= 9)%Z /\ (d = 0%Z <-> c = "0"%char) /\
  isWhiteSpace c = false /\ c <> "+"%char /\ c <> "-"%char.
Proof.
  destruct c as [[] [] [] [] [] [] [] []]; intros H; vm_compute in H;
    try discriminate; injection H as <-;
    repeat split; try reflexivity; try lia;
    try (intros; reflexivity); try (intros; discriminate).
Qed.

Lemma readDigits_digits (ds : string) :
  allDigits ds = true ->
  forall acc, (0 <= acc)%Z ->
  exists z, readDigits ds acc true = Some z /\ (0 <= z)%Z /\
            (z = 0%Z <-> acc = 0%Z /\ allZeros ds = true).
Proof.
  induction ds as [|c ds IH]; simpl; intros H acc Ha.
  - exists acc. repeat split; tauto.
  - destruct (digitValue c) as [d|] eqn:D; [|discriminate].
    destruct (digitValue_range _ D) as [R [Z0 _]].
    destruct (IH H (10 * acc + d)%Z ltac:(lia)) as [z [E [P Q]]].
    exists z. split; [exact E|]. split; [exact P|].
    rewrite Q. destruct (Ascii.eqb_spec c "0") as [->|N]; cbn [andb].
    + assert (d = 0%Z) by now apply Z0.
      split; intros [? ?]; (split; [lia | assumption]).
    + assert (d <> 0%Z) by (intros ?; apply N; now apply Z0).
      split; intros [? ?]; [lia | discriminate].
Qed.

(** After the "v", a run of decimal digits is accepted exactly when it
    is not all zeros. *)
Lemma versionAccepted_digits (ds : string) :
  allDigits ds = true -> ds <> "" ->
  versionAccepted ("v" ++ ds) = negb (allZeros ds).
Proof.
  intros H N. unfold versionAccepted. simpl startsWith.
  change ("v" ++ ds)%string with (String "v" ds). rewrite substringFrom_1.
  destruct ds as [|c ds]; [congruence|]. simpl in H.
  destruct (digitValue c) as [d|] eqn:D; [|discriminate].
  destruct (digitValue_range _ D) as [R [Z0 [W [Np Nm]]]].
  assert (E : parseInt (String c ds) = readDigits (String c ds) 0 false).
  { unfold parseInt. simpl trimStart. rewrite W.
    destruct c as [[] [] [] [] [] [] [] []]; try reflexivity; congruence. }
  rewrite E. cbn [readDigits]. rewrite D.
  replace (10 * 0 + d)%Z with d by lia.
  destruct (@readDigits_digits ds H d ltac:(lia)) as [z [Ez [P Q]]].
  rewrite Ez. simpl. f_equal.
  destruct (Z.eqb_spec z 0) as [Zz|Zz].
  - apply Q in Zz as [Zd Za]. rewrite Za, andb_true_r.
    symmetry. apply Ascii.eqb_eq. now apply Z0.
  - destruct (Ascii.eqb_spec c "0") as [->|Nc]; simpl; [|reflexivity].
    destruct (allZeros ds) eqn:A; [|reflexivity].
    exfalso. apply Zz. apply Q. split; [|reflexivity].
    now apply Z0.
Qed.

(** ** Scene names and their decoding *)

Lemma scene_name_split (show grp unit part task ver ext : string) :
  (show ++ "_" ++ grp ++ "_" ++ unit ++ "_" ++ part ++ "_"
     ++ task ++ "_" ++ ver ++ ext)%string
  = (((show ++ "_" ++ grp ++ "_" ++ unit ++ "_" ++ part ++ "_")
        ++ (task ++ String "_" ver)) ++ ext)%string.
Proof.
  repeat rewrite append_assoc. simpl. repeat rewrite append_assoc. reflexivity.
Qed.

(** Decoding an encoded name gives the task and the version back as
    soon as the version passes the version rule and holds no "_". *)
Lemma decodeName_encoded (ext prefix task version : string) :
  contains_char "_" version = false ->
  decodeName ext prefix ((prefix ++ (task ++ String "_" version)) ++ ext)
  = if versionAccepted version then Some (task, version) else None.
Proof.
  intros Hv. unfold decodeName.
  rewrite endsWith_append. simpl negb. cbv iota.
  rewrite strip_extension.
  unfold startsWith. rewrite prefix_append. simpl negb. cbv iota.
  rewrite strip_prefix.
  rewrite (split_append_last _ _ _ Hv).
  rewrite length_app. simpl List.length.
  assert (L : List.length (split "_" task) <> 0)
    by (destruct (split "_" task) eqn:E; [now apply split_not_nil in E | discriminate]).
  destruct (Nat.eqb_spec (List.length (split "_" task) + 1) 1) as [E|_]; [lia|].
  rewrite last_last, removelast_last.
  rewrite (join_split "_" task).
  now destruct (versionAccepted version).
Qed.

(** ** Dictionaries *)

Lemma assoc_app (A : Type) (k : string) (l l' : list (string * A)) :
  assoc k (l ++ l') = match assoc k l with
                      | Some v => Some v
                      | None => assoc k l'
                      end.
Proof.
  induction l as [|[k' v] l IH]; simpl; [reflexivity|].
  now destruct (k =? k')%string.
Qed.

Lemma assoc_In (A : Type) (k : string) (v : A) (l : list (string * A)) :
  assoc k l = Some v -> In (k, v) l.
Proof.
  induction l as [|[k' v'] l IH]; simpl; [discriminate|].
  destruct (String.eqb_spec k k') as [->|N].
  - intros [= ->]. now left.
  - intros H. right. now apply IH.
Qed.

Lemma assoc_None (A : Type) (k : string) (l : list (string * A)) :
  assoc k l = None <-> ~ In k (keys l).
Proof.
  induction l as [|[k' v'] l IH]; simpl.
  - split; [now intros _ [] | reflexivity].
  - destruct (String.eqb_spec k k') as [->|N].
    + split; [discriminate | intros H; exfalso; apply H; now left].
    + rewrite IH. split.
      * intros H [E|I]; [congruence | now apply H].
      * intros H I. apply H. now right.
Qed.

Lemma In_assoc (A : Type) (k : string) (v : A) (l : list (string * A)) :
  NoDup (keys l) -> In (k, v) l -> assoc k l = Some v.
Proof.
  induction l as [|[k' v'] l IH]; simpl; [now intros _ []|].
  intros ND [E|I].
  - injection E as -> ->. now rewrite String.eqb_refl.
  - inversion ND as [|? ? Hn ND']; subst.
    destruct (String.eqb_spec k k') as [->|N].
    + exfalso. apply Hn. change k' with (fst (k', v)). now apply in_map.
    + now apply IH.
Qed.

Lemma In_keys_assoc (A : Type) (k : string) (l : list (string * A)) :
  In k (keys l) -> exists v, assoc k l = Some v.
Proof.
  intros H. destruct (assoc k l) eqn:E; [now eexists|].
  now apply assoc_None in E.
Qed.

Lemma keys_assoc_update (A : Type) (k : string) (f : A -> A)
    (l : list (string * A)) :
  keys (assoc_update k f l) = keys l.
Proof.
  induction l as [|[k' v'] l IH]; simpl; [reflexivity|].
  destruct (k =? k')%string; simpl; [reflexivity | now rewrite IH].
Qed.

Lemma assoc_update_same (A : Type) (k : string) (f : A -> A)
    (l : list (string * A)) (v : A) :
  assoc k l = Some v -> assoc k (assoc_update k f l) = Some (f v).
Proof.
  induction l as [|[k' v'] l IH]; simpl; [discriminate|].
  destruct (String.eqb_spec k k') as [->|N]; simpl.
  - intros [= ->]. now rewrite String.eqb_refl.
  - intros H. destruct (String.eqb_spec k k'); [congruence | now apply IH].
Qed.

Lemma assoc_update_other (A : Type) (k k' : string) (f : A -> A)
    (l : list (string * A)) :
  k' <> k -> assoc k' (assoc_update k f l) = assoc k' l.
Proof.
  intros N. induction l as [|[k0 v0] l IH]; simpl; [reflexivity|].
  destruct (String.eqb_spec k k0) as [->|N0]; simpl.
  - destruct (String.eqb_spec k' k0); [congruence | reflexivity].
  - destruct (k' =? k0)%string; [reflexivity | exact IH].
Qed.

Lemma In_assoc_update (A : Type) (k k' : string) (f : A -> A)
    (l : list (string * A)) (v' : A) :
  In (k', v') (assoc_update k f l) ->
  exists v, In (k', v) l /\ (v' = v \/ v' = f v).
Proof.
  induction l as [|[k0 v0] l IH]; simpl; [now intros []|].
  destruct (k =? k0)%string; simpl.
  - intros [E|I].
    + injection E as <- <-. exists v0. split; [now left | now right].
    + exists v'. split; [now right | now left].
  - intros [E|I].
    + injection E as <- <-. exists v0. split; [now left | now left].
    + destruct (IH I) as [v [H1 H2]]. exists v. split; [now right | exact H2].
Qed.

(** ** The loop of the discovery *)

Ltac monad :=
  unfold bind, lift, ret, throw, existsSync, lstatSync, readdirSync in *.

Lemma record_ok this dir pg taskMap task version :
  inherited task = false ->
  exists taskMap', record this dir pg taskMap task version = Ok taskMap'.
Proof.
  intros H. unfold record, js_get. rewrite H.
  destruct (assoc task taskMap); eauto.
Qed.

Lemma record_has this dir pg taskMap task version taskMap' :
  record this dir pg taskMap task version = Ok taskMap' ->
  has taskMap' task version.
Proof.
  unfold record, js_get, has.
  destruct (assoc task taskMap) as [t|] eqn:E.
  - intros [= <-]. exists (pushVersion version t). split.
    + now apply assoc_update_same.
    + simpl. apply in_or_app. right. now left.
  - destruct (inherited task); [discriminate|]. intros [= <-].
    eexists. rewrite assoc_app, E. simpl. rewrite String.eqb_refl.
    split; [reflexivity | simpl; now left].
Qed.

Lemma record_mono this dir pg taskMap task version taskMap' k v :
  record this dir pg taskMap task version = Ok taskMap' ->
  has taskMap k v -> has taskMap' k v.
Proof.
  unfold record, js_get, has. intros R [t [A I]].
  destruct (assoc task taskMap) as [t0|] eqn:E.
  - injection R as <-. destruct (String.eqb_spec k task) as [->|N].
    + exists (pushVersion version t0). split.
      * now apply assoc_update_same.
      * simpl. apply in_or_app. left. congruence.
    + exists t. split; [now rewrite assoc_update_other | exact I].
  - destruct (inherited task); [discriminate|]. injection R as <-.
    exists t. split; [now rewrite assoc_app, A | exact I].
Qed.

Lemma record_wf this dir pg taskMap task version taskMap' :
  record this dir pg taskMap task version = Ok taskMap' ->
  wf_taskMap taskMap -> wf_taskMap taskMap'.
Proof.
  unfold record, js_get, wf_taskMap. intros R [ND W].
  destruct (assoc task taskMap) as [t0|] eqn:E.
  - injection R as <-. split.
    + now rewrite keys_assoc_update.
    + intros k t I. apply In_assoc_update in I as [t1 [I [->| ->]]].
      * now apply W.
      * destruct (W _ _ I) as [N V]. split; [exact N|].
        simpl. now destruct (TaskBranch.Versions t1).
  - destruct (inherited task); [discriminate|]. injection R as <-. split.
    + unfold keys. rewrite map_app. simpl.
      apply NoDup_app_remove_l with (l := []). simpl.
      apply Permutation_NoDup with (l := task :: map fst taskMap).
      * apply Permutation_cons_append.
      * constructor; [now apply assoc_None in E | exact ND].
    + intros k t I. apply in_app_or in I as [I|[I|[]]].
      * now apply W.
      * injection I as <- <-. simpl. split; [reflexivity | discriminate].
Qed.

Lemma scanFile_world this dir pg show grp unit part taskMap f w :
  snd (scanFile this dir pg show grp unit part taskMap f w) = w.
Proof.
  unfold scanFile. monad.
  destruct (assoc (path_join dir f) (files w)) as [n|]; [|reflexivity].
  destruct (isFile n); simpl; [|reflexivity].
  destruct pg as [p| |].
  - destruct (decodeName _ _ f) as [[t v]|]; reflexivity.
  - destruct (endsWith f "undefined"); reflexivity.
  - destruct (endsWith f "undefined"); reflexivity.
Qed.

(** One step of the loop either keeps [taskMap] or records one decoded
    (task, version). *)
Lemma scanFile_step this dir pg show grp unit part taskMap f w taskMap' w' :
  scanFile this dir pg show grp unit part taskMap f w = (Ok taskMap', w') ->
  w' = w /\
  (taskMap' = taskMap \/
   exists task version,
     record this dir pg taskMap task version = Ok taskMap').
Proof.
  intros H. split.
  - pose proof (scanFile_world this dir pg show grp unit part taskMap f w) as S.
    rewrite H in S. exact S.
  - revert H. unfold scanFile. monad.
    destruct (assoc (path_join dir f) (files w)) as [n|]; [|discriminate].
    destruct (isFile n); simpl; [|intros [= <- _]; now left].
    destruct pg as [p| |].
    + destruct (decodeName _ _ f) as [[t v]|].
      * intros [= E _]. right. now exists t, v.
      * intros [= <- _]. now left.
    + destruct (endsWith f "undefined"); simpl; [discriminate|].
      intros [= <- _]. now left.
    + destruct (endsWith f "undefined"); simpl; [discriminate|].
      intros [= <- _]. now left.
Qed.

Lemma scanFiles_invariant this dir pg show grp unit part fs :
  forall taskMap w taskMap' w',
    scanFiles this dir pg show grp unit part fs taskMap w = (Ok taskMap', w') ->
    w' = w /\
    (wf_taskMap taskMap -> wf_taskMap taskMap') /\
    (forall k v, has taskMap k v -> has taskMap' k v).
Proof.
  induction fs as [|f fs IH]; simpl; intros tm w tm' w' H.
  - injection H as <- <-. auto.
  - unfold bind in H.
    destruct (scanFile this dir pg show grp unit part tm f w) as [[tm1|e] w1] eqn:S;
      [|discriminate].
    apply scanFile_step in S as [-> S].
    apply IH in H as [-> [W M]]. split; [reflexivity|].
    destruct S as [->|[t [v R]]]; [auto|]. split.
    + intros Hw. apply W. eapply record_wf; eauto.
    + intros k x Hh. apply M. eapply record_mono; eauto.
Qed.

Lemma scanFile_regular this dir p show grp unit part taskMap f w :
  assoc (path_join dir f) (files w) = Some FileNode ->
  scanFile this dir (Own p) show grp unit part taskMap f w =
  (match decodeName (Program.Ext p)
           (show ++ "_" ++ grp ++ "_" ++ unit ++ "_" ++ part ++ "_") f with
   | None => Ok taskMap
   | Some (task, version) => record this dir (Own p) taskMap task version
   end, w).
Proof.
  intros H. unfold scanFile. monad. rewrite H. simpl.
  now destruct (decodeName _ _ f) as [[t v]|].
Qed.

(** The loop runs to its end when every listed entry can be examined
    and no decoded task name is a member of Object.prototype; whatever
    a regular file decodes to is then in the result. *)
Lemma scanFiles_ok this dir p show grp unit part fs w :
  (forall f, In f fs -> exists n, assoc (path_join dir f) (files w) = Some n) ->
  (forall f task version, In f fs ->
     decodeName (Program.Ext p)
       (show ++ "_" ++ grp ++ "_" ++ unit ++ "_" ++ part ++ "_") f
     = Some (task, version) -> inherited task = false) ->
  forall taskMap,
  exists taskMap',
    scanFiles this dir (Own p) show grp unit part fs taskMap w = (Ok taskMap', w) /\
    forall f task version,
      In f fs ->
      assoc (path_join dir f) (files w) = Some FileNode ->
      decodeName (Program.Ext p)
        (show ++ "_" ++ grp ++ "_" ++ unit ++ "_" ++ part ++ "_") f
      = Some (task, version) ->
      has taskMap' task version.
Proof.
  induction fs as [|f fs IH]; intros Hst Hin tm.
  - exists tm. split; [reflexivity | now intros ? ? ? []].
  - assert (S : exists tm1,
               scanFile this dir (Own p) show grp unit part tm f w = (Ok tm1, w) /\
               forall task version,
                 assoc (path_join dir f) (files w) = Some FileNode ->
                 decodeName (Program.Ext p)
                   (show ++ "_" ++ grp ++ "_" ++ unit ++ "_" ++ part ++ "_") f
                 = Some (task, version) ->
                 has tm1 task version).
    { destruct (Hst f (or_introl eq_refl)) as [n Hn].
      destruct n as [m| |].
      - exists tm. split; [|congruence].
        unfold scanFile. monad. now rewrite Hn.
      - rewrite (scanFile_regular _ _ _ _ _ _ _ _ _ _ Hn).
        destruct (decodeName _ _ f) as [[t v]|] eqn:D.
        + destruct (record_ok this dir (Own p) tm t v
                      (Hin f t v (or_introl eq_refl) D)) as [tm1 R].
          exists tm1. rewrite R. split; [reflexivity|].
          intros t' v' _ [= <- <-]. eapply record_has; eauto.
        + exists tm. split; [reflexivity | discriminate].
      - exists tm. split; [|congruence].
        unfold scanFile. monad. now rewrite Hn. }
    destruct S as [tm1 [S1 S2]].
    destruct (IH (fun f' I => Hst f' (or_intror I))
                 (fun f' t v I => Hin f' t v (or_intror I)) tm1)
      as [tm' [R1 R2]].
    exists tm'. split.
    + simpl. unfold bind. now rewrite S1.
    + intros f' t v [<-|I] Hf D.
      * destruct (scanFiles_invariant _ _ _ _ _ _ _ _ _ _ R1) as [_ [_ M]].
        apply M. now apply S2.
      * eapply R2; eauto.
Qed.

(** ** The file system *)

Lemma path_join_not_empty (a b : string) : path_join a b <> "".
Proof.
  unfold path_join.
  destruct (String.eqb_spec b "") as [->|Nb].
  - destruct (String.eqb_spec a ""); [discriminate | assumption].
  - destruct (String.eqb_spec a "") as [->|Na]; [assumption|].
    destruct a; [congruence | discriminate].
Qed.

Lemma In_assoc_some (A : Type) (k : string) (v : A) (l : list (string * A)) :
  In (k, v) l -> exists v', assoc k l = Some v'.
Proof.
  intros H. apply In_keys_assoc. change k with (fst (k, v)). now apply in_map.
Qed.

Lemma child_name_path (d p r : string) :
  d <> "" -> child_name d p = Some r -> p = path_join d r.
Proof.
  intros Nd. unfold child_name.
  destruct (startsWith p (d ++ "/")) eqn:S; [|discriminate].
  apply prefix_inv in S as [x ->].
  replace (String.length d + 1) with (String.length (d ++ "/"))
    by (rewrite length_append; reflexivity).
  rewrite substringFrom_append.
  destruct (String.eqb_spec x "") as [->|Nx]; [discriminate|].
  destruct (contains_char "/" x); simpl; [discriminate|].
  intros [= <-]. unfold path_join.
  destruct (String.eqb_spec x ""); [congruence|].
  destruct (String.eqb_spec d ""); [congruence|].
  now rewrite append_assoc.
Qed.

(** Every entry [readdir] lists is there for [lstat]. *)
Lemma children_exist (d : string) (fs fs0 : FS) (f : string) :
  d <> "" -> incl fs fs0 -> In f (children d fs) ->
  exists n, assoc (path_join d f) fs0 = Some n.
Proof.
  intros Nd. induction fs as [|[p n] fs IH]; simpl; intros I H; [now destruct H|].
  assert (I' : incl fs fs0) by (intros x Hx; apply I; now right).
  destruct (child_name d p) as [r|] eqn:C.
  - destruct H as [<-|H]; [|now apply IH].
    apply child_name_path in C; [|exact Nd]. subst p.
    apply In_assoc_some with (v := n). apply I. now left.
  - now apply IH.
Qed.

(** A plain name under [d] that is in the file system is listed. *)
Lemma children_complete (d f : string) (n : node) (fs : FS) :
  d <> "" -> f <> "" -> contains_char "/" f = false ->
  In (path_join d f, n) fs -> In f (children d fs).
Proof.
  intros Nd Nf Hs. unfold path_join.
  destruct (String.eqb_spec f ""); [congruence|].
  destruct (String.eqb_spec d ""); [congruence|].
  assert (C : child_name d (d ++ "/" ++ f) = Some f).
  { unfold child_name. rewrite <- append_assoc.
    unfold startsWith. rewrite prefix_append.
    replace (String.length d + 1) with (String.length (d ++ "/"))
      by (rewrite length_append; reflexivity).
    rewrite substringFrom_append.
    destruct (String.eqb_spec f ""); [congruence|]. now rewrite Hs. }
  simpl in C.
  induction fs as [|[p m] fs IH]; simpl; [now intros []|].
  intros [E|I].
  - injection E as -> ->. rewrite C. now left.
  - destruct (child_name d p); [right|]; now apply IH.
Qed.

(** ** Sorting *)

Section SortFacts.
Variable A : Type.
Variable le : A -> A -> bool.

Lemma insert_sorted_perm (x : A) (l : list A) :
  Permutation (x :: l) (insert_sorted le x l).
Proof.
  induction l as [|y l IH]; simpl; [reflexivity|].
  destruct (le x y); [reflexivity|].
  rewrite perm_swap. now constructor.
Qed.

Lemma sort_by_perm (l : list A) : Permutation l (sort_by le l).
Proof.
  induction l as [|x l IH]; simpl; [reflexivity|].
  rewrite <- insert_sorted_perm. now constructor.
Qed.

Hypothesis le_total : forall x y, le x y = false -> le y x = true.
Hypothesis le_trans :
  forall x y z, le x y = true -> le y z = true -> le x z = true.

Lemma insert_sorted_sorted (x : A) (l : list A) :
  StronglySorted (fun a b => le a b = true) l ->
  StronglySorted (fun a b => le a b = true) (insert_sorted le x l).
Proof.
  induction 1 as [|y l S IH F]; simpl.
  - repeat constructor.
  - destruct (le x y) eqn:E.
    + constructor; [now constructor|].
      constructor; [exact E|].
      eapply Forall_impl; [|exact F]. intros z. now apply le_trans.
    + constructor; [exact IH|].
      eapply Permutation_Forall; [apply insert_sorted_perm|].
      constructor; [now apply le_total | exact F].
Qed.

Lemma sort_by_sorted (l : list A) :
  StronglySorted (fun a b => le a b = true) (sort_by le l).
Proof.
  induction l as [|x l IH]; simpl; [constructor|].
  now apply insert_sorted_sorted.
Qed.
End SortFacts.

Lemma ascii_compare_N (a b : ascii) :
  Ascii.compare a b = N.compare (N_of_ascii a) (N_of_ascii b).
Proof. reflexivity. Qed.

Lemma str_le_trans (a b c : string) :
  str_le a b = true -> str_le b c = true -> str_le a c = true.
Proof.
  unfold str_le, String.leb. revert b c.
  induction a as [|x a IH]; intros [|y b] [|z c]; simpl; try easy.
  rewrite !ascii_compare_N.
  destruct (N.compare_spec (N_of_ascii x) (N_of_ascii y)) as [E1|L1|G1];
    destruct (N.compare_spec (N_of_ascii y) (N_of_ascii z)) as [E2|L2|G2];
    destruct (N.compare_spec (N_of_ascii x) (N_of_ascii z)) as [E3|L3|G3];
    try easy; try lia.
  apply IH.
Qed.

Lemma str_le_total (a b : string) : str_le a b = false -> str_le b a = true.
Proof.
  unfold str_le. intros H. destruct (String.leb_total a b); congruence.
Qed.

(** The comparator given to [tasks.sort] orders as [<=] on the names. *)
Lemma compare_le (a b : string) : (compare a b <=? 0)%Z = str_le a b.
Proof.
  unfold compare, str_lt, str_le, String.ltb, String.leb.
  rewrite (String.compare_antisym a b).
  destruct (String.compare b a); reflexivity.
Qed.

Lemma sort_strings_sorted (l : list string) :
  StronglySorted (fun a b => str_le a b = true) (sort_strings l).
Proof.
  apply sort_by_sorted; [exact str_le_total | exact str_le_trans].
Qed.

Lemma StronglySorted_impl (A : Type) (R R' : A -> A -> Prop) (l : list A) :
  (forall a b, R a b -> R' a b) -> StronglySorted R l -> StronglySorted R' l.
Proof.
  intros H. induction 1 as [|x l S IH F]; constructor; [exact IH|].
  eapply Forall_impl; [|exact F]. intros b. apply H.
Qed.

Lemma sortTasks_sorted (ts : list TaskBranch.t) :
  StronglySorted
    (fun a b => str_le (TaskBranch.Name a) (TaskBranch.Name b) = true)
    (sortTasks ts).
Proof.
  unfold sortTasks.
  eapply StronglySorted_impl; [|apply sort_by_sorted].
  - intros a b. simpl. now rewrite compare_le.
  - intros x y. rewrite !compare_le. apply str_le_total.
  - intros x y z. rewrite !compare_le. apply str_le_trans.
Qed.

Lemma forIn_perm (A : Type) (o : list (string * A)) : Permutation (forIn o) o.
Proof.
  unfold forIn. rewrite <- sort_by_perm.
  induction o as [|kv o IH]; simpl; [reflexivity|].
  destruct (isIndexKey kv); simpl.
  - now constructor.
  - rewrite <- Permutation_middle. now constructor.
Qed.

(** ** Discovery as a whole *)

(** What [Tasks] returns is the empty list or the sorted contents of a
    well-formed [taskMap]; the world is as before. *)
Lemma Tasks_inv g this prog w ts w' :
  Tasks g this prog w = (Ok ts, w') ->
  w' = w /\
  (ts = [] \/
   exists taskMap,
     wf_taskMap taskMap /\
     ts = sortTasks (map (fun kv => sortVersions (snd kv)) (forIn taskMap))).
Proof.
  unfold Tasks. monad.
  destruct (ProgramAt this prog) as [progDir|e]; [|discriminate].
  set (dir := path_join (Branch.Dir (PartBranch.branch this)) progDir).
  destruct (assoc dir (files w)) as [n|] eqn:D; simpl;
    [|intros [= <- <-]; auto].
  destruct (js_get (SiteInfo.programs (siteInfo g)) prog) as [p| |];
    [| |discriminate];
    (destruct (getParent _ "show") as [show|]; [|discriminate];
     destruct (getParent _ "group") as [grp|]; [|discriminate];
     destruct (getParent _ "unit") as [unit|]; [|discriminate];
     rewrite D; destruct n; try discriminate; cbv beta iota zeta;
     destruct (scanFiles _ _ _ _ _ _ _ _ _ _) as [[tm|e] w2] eqn:S;
       [|discriminate];
     intros [= <- <-];
     apply scanFiles_invariant in S as [-> [W _]];
     split; [reflexivity|]; right; exists tm; split; [|reflexivity];
     apply W; split; [constructor | now intros ? ? []]).
Qed.

Lemma In_sortTasks (t : TaskBranch.t) (taskMap : list (string * TaskBranch.t)) :
  In t (sortTasks (map (fun kv => sortVersions (snd kv)) (forIn taskMap))) <->
  exists k t0, In (k, t0) taskMap /\ t = sortVersions t0.
Proof.
  unfold sortTasks. split.
  - intros H.
    apply (Permutation_in _ (Permutation_sym (sort_by_perm _ _))) in H.
    apply in_map_iff in H as [[k t0] [E I]].
    apply (Permutation_in _ (forIn_perm taskMap)) in I.
    exists k, t0. now split.
  - intros [k [t0 [I ->]]].
    apply (Permutation_in _ (sort_by_perm _ _)).
    apply in_map_iff. exists (k, t0). split; [reflexivity|].
    apply (Permutation_in _ (Permutation_sym (forIn_perm taskMap))). exact I.
Qed.

Lemma sort_strings_In (v : string) (l : list string) :
  In v (sort_strings l) <-> In v l.
Proof.
  unfold sort_strings. split; apply Permutation_in;
    [apply Permutation_sym|]; apply sort_by_perm.
Qed.

Lemma sort_strings_nil (l : list string) : sort_strings l = [] -> l = [].
Proof.
  intros H. apply Permutation_nil. rewrite <- H.
  apply Permutation_sym, sort_by_perm.
Qed.

Lemma task_names_NoDup (taskMap : list (string * TaskBranch.t)) :
  wf_taskMap taskMap ->
  NoDup (map TaskBranch.Name
           (sortTasks (map (fun kv => sortVersions (snd kv)) (forIn taskMap)))).
Proof.
  intros [ND W].
  apply Permutation_NoDup with (l := keys taskMap); [|exact ND].
  unfold sortTasks. rewrite <- sort_by_perm.
  rewrite map_map. unfold keys.
  rewrite (Permutation_map _ (forIn_perm taskMap)).
  apply Permutation_refl'.
  apply map_ext_in. intros [k t] I. simpl. symmetry. now apply W.
Qed.

(** ** The discovery does not depend on the order of the listing *)

Lemma versionsIn_app (k : string) (l l' : list (string * string)) :
  versionsIn k (l ++ l') = versionsIn k l ++ versionsIn k l'.
Proof. unfold versionsIn. now rewrite filter_app, map_app. Qed.

Lemma versionsIn_one (k k' v : string) :
  versionsIn k [(k', v)] = if (k' =? k)%string then [v] else [].
Proof. unfold versionsIn. simpl. now destruct (k' =? k)%string. Qed.

Lemma record_built this dir pg pairs taskMap task version taskMap' :
  built this dir pg pairs taskMap ->
  record this dir pg taskMap task version = Ok taskMap' ->
  built this dir pg (pairs ++ [(task, version)]) taskMap'.
Proof.
  intros [ND [B0 B1]]. unfold record, js_get.
  destruct (assoc task taskMap) as [t0|] eqn:E.
  - intros [= <-]. split; [now rewrite keys_assoc_update|]. split.
    + intros k A. rewrite versionsIn_app, versionsIn_one.
      destruct (String.eqb_spec task k) as [->|N].
      * rewrite (assoc_update_same _ _ _ E) in A. discriminate.
      * rewrite assoc_update_other in A by congruence.
        rewrite (B0 k A). reflexivity.
    + intros k t A. rewrite versionsIn_app, versionsIn_one.
      destruct (String.eqb_spec task k) as [->|N].
      * rewrite (assoc_update_same _ _ _ E) in A. injection A as <-.
        destruct (B1 k t0 E) as [-> _]. split; [reflexivity|].
        now destruct (versionsIn k pairs).
      * rewrite assoc_update_other in A by congruence.
        rewrite app_nil_r. now apply B1.
  - destruct (inherited task); [discriminate|]. intros [= <-]. split.
    + unfold keys. rewrite map_app. simpl.
      apply Permutation_NoDup with (l := task :: map fst taskMap).
      * apply Permutation_cons_append.
      * constructor; [now apply assoc_None in E | exact ND].
    + split.
      * intros k A. rewrite assoc_app in A.
        destruct (assoc k taskMap) eqn:Ek; [discriminate|].
        simpl in A. rewrite versionsIn_app, versionsIn_one.
        destruct (String.eqb_spec k task) as [->|N]; [discriminate|].
        destruct (String.eqb_spec task k); [congruence|].
        rewrite (B0 k Ek). reflexivity.
      * intros k t A. rewrite assoc_app in A.
        rewrite versionsIn_app, versionsIn_one.
        destruct (assoc k taskMap) as [t1|] eqn:Ek.
        -- injection A as <-.
           destruct (String.eqb_spec task k) as [->|N]; [congruence|].
           rewrite app_nil_r. now apply B1.
        -- simpl in A.
           destruct (String.eqb_spec k task) as [->|N]; [|discriminate].
           injection A as <-. rewrite String.eqb_refl, (B0 task Ek).
           split; [reflexivity | discriminate].
Qed.

Lemma scanFiles_built this dir p show grp unit part names :
  forall pairs taskMap w taskMap' w',
    built this dir (Own p) pairs taskMap ->
    scanFiles this dir (Own p) show grp unit part names taskMap w
    = (Ok taskMap', w') ->
    built this dir (Own p)
      (pairs ++ decodedPairs dir (Program.Ext p)
                  (show ++ "_" ++ grp ++ "_" ++ unit ++ "_" ++ part ++ "_")
                  (files w) names)
      taskMap'.
Proof.
  induction names as [|f names IH]; intros pairs tm w tm' w' B H; simpl in H.
  - injection H as <- <-. simpl. now rewrite app_nil_r.
  - unfold bind in H.
    destruct (scanFile this dir (Own p) show grp unit part tm f w)
      as [[tm1|e] w1] eqn:S; [|discriminate].
    assert (w1 = w) by (now apply scanFile_step in S). subst w1.
    simpl decodedPairs.
    destruct (assoc (path_join dir f) (files w)) as [n|] eqn:A.
    + destruct n as [m| |].
      * unfold scanFile in S. monad. rewrite A in S. simpl in S.
        injection S as <-. exact (IH _ _ _ _ _ B H).
      * rewrite (scanFile_regular _ _ _ _ _ _ _ _ _ _ A) in S.
        destruct (decodeName _ _ f) as [[t v]|].
        -- injection S as S.
           assert (B1 : built this dir (Own p) (pairs ++ [(t, v)]) tm1)
             by (eapply record_built; eauto).
           specialize (IH _ _ _ _ _ B1 H).
           now rewrite <- app_assoc in IH.
        -- injection S as <-. exact (IH _ _ _ _ _ B H).
      * unfold scanFile in S. monad. rewrite A in S. simpl in S.
        injection S as <-. exact (IH _ _ _ _ _ B H).
    + unfold scanFile in S. monad. rewrite A in S. discriminate.
Qed.

Lemma sorted_permutation_eq (l1 l2 : list string) :
  StronglySorted (fun a b => str_le a b = true) l1 ->
  StronglySorted (fun a b => str_le a b = true) l2 ->
  Permutation l1 l2 -> l1 = l2.
Proof.
  revert l2. induction l1 as [|x l1 IH]; intros l2 S1 S2 P.
  - apply Permutation_nil in P. now subst.
  - destruct l2 as [|y l2];
      [apply Permutation_sym, Permutation_nil in P; discriminate|].
    inversion S1 as [|? ? S1' F1]; inversion S2 as [|? ? S2' F2]; subst.
    assert (E : x = y).
    { assert (Iy : In y (x :: l1))
        by (apply (Permutation_in _ (Permutation_sym P)); now left).
      assert (Ix : In x (y :: l2))
        by (apply (Permutation_in _ P); now left).
      destruct Iy as [E|Iy]; [exact E|].
      destruct Ix as [E|Ix]; [now symmetry|].
      rewrite Forall_forall in F1, F2.
      apply String.leb_antisym; [now apply F1 | now apply F2]. }
    subst y. f_equal. apply IH; try assumption.
    now apply Permutation_cons_inv in P.
Qed.

Lemma sort_strings_permutation (l1 l2 : list string) :
  Permutation l1 l2 -> sort_strings l1 = sort_strings l2.
Proof.
  intros P. apply sorted_permutation_eq; try apply sort_strings_sorted.
  unfold sort_strings. rewrite <- !sort_by_perm. exact P.
Qed.

Lemma assoc_permutation (A : Type) (k : string) (l1 l2 : list (string * A)) :
  Permutation l1 l2 -> NoDup (keys l1) -> assoc k l1 = assoc k l2.
Proof.
  intros P ND.
  assert (ND2 : NoDup (keys l2))
    by (apply Permutation_NoDup with (l := keys l1);
        [now apply Permutation_map | exact ND]).
  destruct (assoc k l1) as [v|] eqn:E.
  - symmetry. apply In_assoc; [exact ND2|].
    apply (Permutation_in _ P). now apply assoc_In.
  - symmetry. apply assoc_None. intros I. apply assoc_None in E. apply E.
    apply (Permutation_in _ (Permutation_sym (Permutation_map fst P))). exact I.
Qed.

Lemma children_permutation (d : string) (fs1 fs2 : FS) :
  Permutation fs1 fs2 -> Permutation (children d fs1) (children d fs2).
Proof.
  induction 1 as [| [p n] l l' P IH | [p n] [q m] l | l l' l'' P1 IH1 P2 IH2];
    simpl.
  - constructor.
  - destruct (child_name d p); [now constructor | exact IH].
  - destruct (child_name d q), (child_name d p);
      try reflexivity. apply perm_swap.
  - now transitivity (children d l').
Qed.

Lemma decodedPairs_permutation (dir ext prefix : string) (fs : FS)
    (names1 names2 : list string) :
  Permutation names1 names2 ->
  Permutation (decodedPairs dir ext prefix fs names1)
              (decodedPairs dir ext prefix fs names2).
Proof.
  induction 1 as [| f l l' P IH | f f' l | l l' l'' P1 IH1 P2 IH2]; simpl.
  - constructor.
  - destruct (assoc (path_join dir f) fs) as [[| |]|]; try exact IH.
    destruct (decodeName ext prefix f); [now constructor | exact IH].
  - destruct (assoc (path_join dir f) fs) as [[| |]|],
             (assoc (path_join dir f') fs) as [[| |]|]; try reflexivity;
      destruct (decodeName ext prefix f), (decodeName ext prefix f');
      try reflexivity. apply perm_swap.
  - now transitivity (decodedPairs dir ext prefix fs l').
Qed.

Lemma decodedPairs_ext (dir ext prefix : string) (fs1 fs2 : FS)
    (names : list string) :
  (forall p, assoc p fs1 = assoc p fs2) ->
  decodedPairs dir ext prefix fs1 names = decodedPairs dir ext prefix fs2 names.
Proof.
  intros H. induction names as [|f names IH]; simpl; [reflexivity|].
  now rewrite H, IH.
Qed.

Lemma versionsIn_permutation (k : string) (l1 l2 : list (string * string)) :
  Permutation l1 l2 -> Permutation (versionsIn k l1) (versionsIn k l2).
Proof.
  unfold versionsIn.
  induction 1 as [| x l l' P IH | x y l | l l' l'' P1 IH1 P2 IH2]; simpl.
  - constructor.
  - destruct (fst x =? k)%string; simpl; [now constructor | exact IH].
  - destruct (fst x =? k)%string, (fst y =? k)%string; simpl;
      try reflexivity. apply perm_swap.
  - now transitivity (map snd (filter (fun tv => (fst tv =? k)%string) l')).
Qed.

(** Two lists in ascending order of names, no name twice, with the same
    members, are the same list. *)
Lemma sorted_tasks_eq (l1 l2 : list TaskBranch.t) :
  StronglySorted
    (fun a b => str_le (TaskBranch.Name a) (TaskBranch.Name b) = true) l1 ->
  StronglySorted
    (fun a b => str_le (TaskBranch.Name a) (TaskBranch.Name b) = true) l2 ->
  NoDup (map TaskBranch.Name l1) ->
  NoDup (map TaskBranch.Name l2) ->
  (forall t, In t l1 <-> In t l2) ->
  l1 = l2.
Proof.
  revert l2. induction l1 as [|x l1 IH]; intros l2 S1 S2 N1 N2 M.
  - destruct l2 as [|y l2]; [reflexivity|].
    exfalso. apply (proj2 (M y)). now left.
  - destruct l2 as [|y l2]; [exfalso; apply (proj1 (M x)); now left|].
    inversion S1 as [|? ? S1' F1]; inversion S2 as [|? ? S2' F2]; subst.
    inversion N1 as [|? ? X1 N1']; inversion N2 as [|? ? X2 N2']; subst.
    rewrite Forall_forall in F1, F2.
    assert (E : x = y).
    { destruct (proj2 (M y) (or_introl eq_refl)) as [E|Iy]; [exact E|].
      destruct (proj1 (M x) (or_introl eq_refl)) as [E|Ix]; [now symmetry|].
      assert (En : TaskBranch.Name x = TaskBranch.Name y)
        by (apply String.leb_antisym; [now apply F1 | now apply F2]).
      exfalso. apply X1. rewrite En. now apply in_map. }
    subst y. f_equal. apply IH; try assumption.
    intros t. split; intros I.
    + destruct (proj1 (M t) (or_intror I)) as [<-|I']; [|exact I'].
      exfalso. apply X1. now apply in_map.
    + destruct (proj2 (M t) (or_intror I)) as [<-|I']; [|exact I'].
      exfalso. apply X2. now apply in_map.
Qed.

Lemma built_wf this dir pg pairs taskMap :
  built this dir pg pairs taskMap -> wf_taskMap taskMap.
Proof.
  intros [ND [_ B1]]. split; [exact ND|].
  intros k t I. apply (In_assoc _ _ _ ND) in I.
  destruct (B1 k t I) as [-> V]. simpl. now split.
Qed.

Lemma built_members this dir pg pairs1 pairs2 tm1 tm2 t :
  built this dir pg pairs1 tm1 ->
  built this dir pg pairs2 tm2 ->
  Permutation pairs1 pairs2 ->
  In t (sortTasks (map (fun kv => sortVersions (snd kv)) (forIn tm1))) ->
  In t (sortTasks (map (fun kv => sortVersions (snd kv)) (forIn tm2))).
Proof.
  intros B1 B2 P I.
  apply In_sortTasks in I as [k [t0 [I ->]]].
  destruct B1 as [ND1 [_ C1]]. destruct B2 as [ND2 [D2 C2]].
  apply (In_assoc _ _ _ ND1) in I.
  destruct (C1 k t0 I) as [-> V1].
  pose proof (versionsIn_permutation k P) as PV.
  destruct (assoc k tm2) as [t2|] eqn:A2.
  - destruct (C2 k t2 A2) as [E2 _].
    apply In_sortTasks. exists k, t2. split; [now apply assoc_In|].
    rewrite E2. unfold sortVersions. simpl.
    now rewrite (sort_strings_permutation PV).
  - exfalso. apply V1. apply Permutation_nil.
    rewrite <- (D2 k A2). now apply Permutation_sym.
Qed.

(** What the loop builds depends on the listed pairs up to their
    order only. *)
Lemma built_output_eq this dir pg pairs1 pairs2 tm1 tm2 :
  built this dir pg pairs1 tm1 ->
  built this dir pg pairs2 tm2 ->
  Permutation pairs1 pairs2 ->
  sortTasks (map (fun kv => sortVersions (snd kv)) (forIn tm1))
  = sortTasks (map (fun kv => sortVersions (snd kv)) (forIn tm2)).
Proof.
  intros B1 B2 P.
  apply sorted_tasks_eq; try apply sortTasks_sorted.
  - apply task_names_NoDup. eapply built_wf; eauto.
  - apply task_names_NoDup. eapply built_wf; eauto.
  - intros t. split; intros I.
    + eapply built_members with (tm1 := tm1); eauto.
    + eapply built_members with (tm1 := tm2); eauto.
      now apply Permutation_sym.
Qed.

Lemma scanFiles_no_program this dir pg show grp unit part names :
  (forall p, pg <> Own p) ->
  forall taskMap w taskMap' w',
    scanFiles this dir pg show grp unit part names taskMap w = (Ok taskMap', w') ->
    taskMap' = taskMap.
Proof.
  intros Hpg. induction names as [|f names IH]; intros tm w tm' w' H; simpl in H.
  - now injection H as <- _.
  - unfold bind in H.
    destruct (scanFile this dir pg show grp unit part tm f w)
      as [[tm1|e] w1] eqn:S; [|discriminate].
    apply IH in H. subst tm'.
    unfold scanFile in S. monad.
    destruct (assoc (path_join dir f) (files w)) as [n|]; [|discriminate].
    destruct (isFile n); simpl in S; [|now injection S as <- _].
    destruct pg as [p| |]; [now destruct (Hpg p) | |];
      (destruct (endsWith f "undefined"); simpl in S;
       [discriminate | now injection S as <- _]).
Qed.

(** What [Tasks] returns, by the cases of its body. *)
Lemma Tasks_cases g this prog w ts w' :
  Tasks g this prog w = (Ok ts, w') ->
  exists progDir,
    ProgramAt this prog = Ok progDir /\
    let dir := path_join (Branch.Dir (PartBranch.branch this)) progDir in
    match assoc dir (files w) with
    | None => ts = []
    | Some _ =>
        match js_get (SiteInfo.programs (siteInfo g)) prog with
        | Own p =>
            exists show grp unit taskMap,
              getParent (PartBranch.branch this) "show" = Ok show /\
              getParent (PartBranch.branch this) "group" = Ok grp /\
              getParent (PartBranch.branch this) "unit" = Ok unit /\
              built this dir (Own p)
                (decodedPairs dir (Program.Ext p)
                   (Branch.Name show ++ "_" ++ Branch.Name grp ++ "_"
                    ++ Branch.Name unit ++ "_"
                    ++ Branch.Name (PartBranch.branch this) ++ "_")
                   (files w) (children dir (files w)))
                taskMap /\
              ts = sortTasks (map (fun kv => sortVersions (snd kv))
                                  (forIn taskMap))
        | _ => ts = []
        end
    end.
Proof.
  unfold Tasks. monad. intros H.
  destruct (ProgramAt this prog) as [progDir|e]; [|discriminate H].
  exists progDir. split; [reflexivity|]. cbv zeta.
  set (dir := path_join (Branch.Dir (PartBranch.branch this)) progDir) in *.
  destruct (assoc dir (files w)) as [n|] eqn:D; simpl in H;
    [|now injection H as <- _].
  destruct (js_get (SiteInfo.programs (siteInfo g)) prog) as [p| |];
    [| |discriminate H];
    (destruct (getParent _ "show") as [show|]; [|discriminate H];
     destruct (getParent _ "group") as [grp|]; [|discriminate H];
     destruct (getParent _ "unit") as [unit|]; [|discriminate H];
     rewrite D in H; destruct n; try discriminate H; cbv beta iota zeta in H;
     destruct (scanFiles _ _ _ _ _ _ _ _ _ _) as [[tm|e] w2] eqn:S;
       [|discriminate H];
     injection H as <- _).
  - exists show, grp, unit, tm.
    split; [reflexivity|]. split; [reflexivity|]. split; [reflexivity|].
    split; [|reflexivity].
    eapply scanFiles_built with (pairs := []) in S; [exact S|].
    split; [apply NoDup_nil|]. split; [reflexivity | discriminate].
  - apply scanFiles_no_program in S; [now subst tm | discriminate].
Qed.

(** Two worlds that hold the same entries, listed in different orders,
    give the same discovery. *)
Lemma Tasks_order_independent
    (g : Globals) (this : PartBranch.t) (prog : string)
    (w1 w2 w1' w2' : World) (ts1 ts2 : list TaskBranch.t) :
  Permutation (files w1) (files w2) ->
  NoDup (keys (files w1)) ->
  Tasks g this prog w1 = (Ok ts1, w1') ->
  Tasks g this prog w2 = (Ok ts2, w2') ->
  ts1 = ts2.
Proof.
  intros P ND H1 H2.
  apply Tasks_cases in H1 as [d1 [E1 C1]].
  apply Tasks_cases in H2 as [d2 [E2 C2]].
  rewrite E1 in E2. injection E2 as <-. cbv zeta in C1, C2.
  rewrite <- (assoc_permutation _ P ND) in C2.
  destruct (assoc _ (files w1)) as [n|]; [|congruence].
  destruct (js_get (SiteInfo.programs (siteInfo g)) prog) as [p| |];
    [|congruence|congruence].
  destruct C1 as [s1 [g1 [u1 [tm1 [S1 [G1 [U1 [B1 ->]]]]]]]].
  destruct C2 as [s2 [g2 [u2 [tm2 [S2 [G2 [U2 [B2 ->]]]]]]]].
  rewrite S1 in S2. rewrite G1 in G2. rewrite U1 in U2.
  injection S2 as <-. injection G2 as <-. injection U2 as <-.
  eapply built_output_eq; eauto.
  rewrite (decodedPairs_ext _ _ _ (files w2) (files w1)).
  - apply decodedPairs_permutation. now apply children_permutation.
  - intros q. symmetry. now apply assoc_permutation.
Qed.

(** ** Claims on scene naming and discovery *)

(** C8.  During discovery the candidate version token of a scene file
    is accepted exactly when it starts with "v" followed by text that
    parseInt reads as a non-zero integer; "v" followed by decimal
    digits is accepted exactly when the digits are not all zeros.  A
    file whose token is rejected, such as "v000" or a token with no
    number after the "v", leaves the task map as it was; a file whose
    token is accepted is recorded under its task. *)
Theorem version_token_rule
    (this : PartBranch.t) (dir : string) (p : Program.t)
    (show grp unit part task version : string)
    (taskMap : list (string * TaskBranch.t)) (w : World) :
  let f := (show ++ "_" ++ grp ++ "_" ++ unit ++ "_" ++ part ++ "_"
            ++ task ++ "_" ++ version ++ Program.Ext p)%string in
  contains_char "_" version = false ->
  assoc (path_join dir f) (files w) = Some FileNode ->
  (versionAccepted version = true <->
   exists rest n,
     version = ("v" ++ rest)%string /\ parseInt rest = Some n /\ n <> 0%Z) /\
  (versionAccepted version = false ->
   scanFile this dir (Own p) show grp unit part taskMap f w = (Ok taskMap, w)) /\
  (versionAccepted version = true ->
   scanFile this dir (Own p) show grp unit part taskMap f w
   = (record this dir (Own p) taskMap task version, w)) /\
  (forall ds, allDigits ds = true -> ds <> "" ->
              versionAccepted ("v" ++ ds) = negb (allZeros ds)) /\
  versionAccepted "v000" = false /\
  versionAccepted "vfinal" = false /\
  versionAccepted "v" = false.
Proof.
  intros f Hv Hf.
  assert (S : scanFile this dir (Own p) show grp unit part taskMap f w
              = (if versionAccepted version
                 then record this dir (Own p) taskMap task version
                 else Ok taskMap, w)).
  { rewrite (scanFile_regular _ _ _ _ _ _ _ _ _ _ Hf). unfold f.
    rewrite scene_name_split, (decodeName_encoded _ _ _ _ Hv).
    now destruct (versionAccepted version). }
  split; [apply versionAccepted_spec|].
  split; [intros A; now rewrite S, A|].
  split; [intros A; now rewrite S, A|].
  split; [exact versionAccepted_digits|].
  repeat split.
Qed.

Lemma version_token_rule_witness :
  contains_char "_" "v000" = false /\
  assoc (path_join Example.scenes "sh01_g1_u1_comp_main_v000.nk")
        (files Example.studio) = Some FileNode /\
  scanFile Example.compPart Example.scenes (Own Example.nuke)
    "sh01" "g1" "u1" "comp" [] "sh01_g1_u1_comp_main_v000.nk" Example.studio
  = (Ok [], Example.studio).
Proof.
  split; [reflexivity|]. split; [reflexivity|].
  apply (@version_token_rule Example.compPart Example.scenes Example.nuke
           "sh01" "g1" "u1" "comp" "main" "v000" [] Example.studio);
    reflexivity.
Defined.

(** C9.  The tasks a discovery returns are in ascending order of their
    names, no name occurring twice, and the versions of each task are
    in ascending lexicographic order: ["v010","v002","v001"] comes out
    as ["v001","v002","v010"], and "v100" comes before "v20".  The
    result is the same for a world that holds the same entries listed
    in another order. *)
Theorem discovery_is_ordered
    (g : Globals) (this : PartBranch.t) (prog : string)
    (w w' : World) (ts : list TaskBranch.t)
    (w2 w2' : World) (ts2 : list TaskBranch.t) :
  Tasks g this prog w = (Ok ts, w') ->
  Permutation (files w) (files w2) ->
  NoDup (keys (files w)) ->
  Tasks g this prog w2 = (Ok ts2, w2') ->
  StronglySorted
    (fun a b => str_le (TaskBranch.Name a) (TaskBranch.Name b) = true) ts /\
  NoDup (map TaskBranch.Name ts) /\
  (forall t, In t ts ->
     StronglySorted (fun a b => str_le a b = true) (TaskBranch.Versions t)) /\
  ts2 = ts /\
  sort_strings ["v010"; "v002"; "v001"] = ["v001"; "v002"; "v010"] /\
  sort_strings ["v20"; "v100"] = ["v100"; "v20"].
Proof.
  intros H P ND H2.
  assert (E : ts2 = ts)
    by (symmetry; eapply Tasks_order_independent; eauto).
  apply Tasks_inv in H as [_ [->|[tm [W ->]]]].
  - repeat split; try constructor; try assumption. now intros t [].
  - split; [apply sortTasks_sorted|].
    split; [now apply task_names_NoDup|].
    split; [|split; [exact E | split; reflexivity]].
    intros t I. apply In_sortTasks in I as [k [t0 [_ ->]]]. simpl.
    apply sort_strings_sorted.
Qed.

Lemma discovery_is_ordered_witness :
  Tasks Example.g Example.compPart "nuke" Example.studio
  = (Ok Example.discovered, Example.studio) /\
  Tasks Example.g Example.compPart "nuke" Example.studioReversed
  = (Ok Example.discovered, Example.studioReversed) /\
  StronglySorted
    (fun a b => str_le (TaskBranch.Name a) (TaskBranch.Name b) = true)
    Example.discovered.
Proof.
  split; [vm_compute; reflexivity|]. split; [vm_compute; reflexivity|].
  apply (@discovery_is_ordered Example.g Example.compPart "nuke"
           Example.studio Example.studio Example.discovered
           Example.studioReversed Example.studioReversed Example.discovered).
  - vm_compute; reflexivity.
  - apply Permutation_rev.
  - unfold Example.studio, Example.world, Example.tree, Example.scene,
      Example.scenes, keys. simpl.
    repeat (constructor; [simpl; intuition discriminate|]). constructor.
  - vm_compute; reflexivity.
Defined.

(** C10.  For a part and a program declared in its [ProgramDir],
    [Tasks] returns the empty list, and no error, when the task
    directory of the program is not on disk. *)
Theorem Tasks_without_directory
    (g : Globals) (this : PartBranch.t) (prog progDir : string)
    (pd : list (string * string)) (w : World) :
  PartBranch.ProgramDir this = Some pd ->
  assoc prog pd = Some progDir ->
  assoc (path_join (Branch.Dir (PartBranch.branch this)) progDir) (files w)
  = None ->
  Tasks g this prog w = (Ok [], w).
Proof.
  intros Hpd Hp Hd. unfold Tasks, ProgramAt, js_get. monad.
  rewrite Hpd, Hp. simpl. now rewrite Hd.
Qed.

Lemma Tasks_without_directory_witness :
  PartBranch.ProgramDir Example.compPart = Some [("nuke", "scenes")] /\
  assoc "nuke" [("nuke", "scenes")] = Some "scenes" /\
  assoc (path_join (Branch.Dir (PartBranch.branch Example.compPart)) "scenes")
        (files Example.fresh) = None /\
  Tasks Example.g Example.compPart "nuke" Example.fresh = (Ok [], Example.fresh).
Proof.
  repeat (split; [reflexivity|]).
  apply (@Tasks_without_directory Example.g Example.compPart "nuke" "scenes"
           [("nuke", "scenes")] Example.fresh); reflexivity.
Defined.

Lemma no_inherited_task_spec (ext prefix : string) (fs : list string) :
  no_inherited_task ext prefix fs = true ->
  forall f task version,
    In f fs -> decodeName ext prefix f = Some (task, version) ->
    inherited task = false.
Proof.
  unfold no_inherited_task. rewrite forallb_forall.
  intros H f t v I D. specialize (H f I). rewrite D in H.
  now apply negb_true_iff.
Qed.

Lemma NoDup_map_eq (A B : Type) (f : A -> B) (l : list A) (a b : A) :
  NoDup (map f l) -> In a l -> In b l -> f a = f b -> a = b.
Proof.
  induction l as [|x l IH]; simpl; [now intros _ []|].
  intros ND Ia Ib E. inversion ND as [|? ? N ND']; subst.
  destruct Ia as [->|Ia], Ib as [->|Ib]; try reflexivity.
  - exfalso. apply N. rewrite E. now apply in_map.
  - exfalso. apply N. rewrite <- E. now apply in_map.
  - now apply IH.
Qed.

Lemma append_cons_not_empty (a : string) (c : ascii) (r : string) :
  (a ++ String c r)%string <> "".
Proof. destruct a; discriminate. Qed.

(** C3 (as amended).  The name [Scene] encodes from show, group, unit,
    part, task and version, with the extension of the program, is
    decoded by [Tasks] run over a directory that holds the file: the
    result has exactly one task of that name and the version is in its
    list, also when the task name holds "_".  This needs the version to
    pass the version rule of the discovery and to hold no "_" itself,
    and no file of the directory to decode to a task named like a
    member of Object.prototype. *)
Theorem scene_roundtrip
    (g : Globals) (this : PartBranch.t) (prog progDir : string)
    (pd : list (string * string)) (p : Program.t)
    (show grp unit : Branch.t) (task version : string)
    (m : option string) (w : World) :
  let b := PartBranch.branch this in
  let dir := path_join (Branch.Dir b) progDir in
  let prefix := (Branch.Name show ++ "_" ++ Branch.Name grp ++ "_"
                 ++ Branch.Name unit ++ "_" ++ Branch.Name b ++ "_")%string in
  let name := (Branch.Name show ++ "_" ++ Branch.Name grp ++ "_"
               ++ Branch.Name unit ++ "_" ++ Branch.Name b ++ "_"
               ++ task ++ "_" ++ version ++ Program.Ext p)%string in
  Branch.Type_ b = "part" ->
  PartBranch.ProgramDir this = Some pd ->
  assoc prog pd = Some progDir ->
  assoc prog (SiteInfo.programs (siteInfo g)) = Some p ->
  getParent b "show" = Ok show ->
  getParent b "group" = Ok grp ->
  getParent b "unit" = Ok unit ->
  versionAccepted version = true ->
  contains_char "_" version = false ->
  assoc dir (files w) = Some (DirNode m) ->
  contains_char "/" name = false ->
  assoc (path_join dir name) (files w) = Some FileNode ->
  no_inherited_task (Program.Ext p) prefix (children dir (files w)) = true ->
  TaskBranch_Scene (newTaskBranch this task (Own p) dir) (Some version)
  = Ok (path_join dir name) /\
  exists ts t,
    Tasks g this prog w = (Ok ts, w) /\
    In t ts /\
    TaskBranch.Name t = task /\
    In version (TaskBranch.Versions t) /\
    forall t', In t' ts -> TaskBranch.Name t' = task -> t' = t.
Proof.
  intros b dir prefix name Hty Hpd Hprog Hpg Hshow Hgrp Hunit Hacc Hver
         Hdir Hplain Hfile Hinh.
  assert (Hv : version <> "").
  { apply versionAccepted_spec in Hacc as [r [n [-> _]]]. discriminate. }
  split.
  - unfold TaskBranch_Scene, getParentOfTask, newTaskBranch, falsy, res_bind.
    simpl. fold b.
    destruct (String.eqb_spec version ""); [congruence|].
    rewrite Hty. simpl. rewrite Hshow, Hgrp, Hunit. reflexivity.
  - assert (Nd : dir <> "") by apply path_join_not_empty.
    assert (Nn : name <> "").
    { unfold name. rewrite scene_name_split.
      intros E. apply (f_equal String.length) in E.
      rewrite !length_append in E. simpl in E. lia. }
    destruct (scanFiles_ok this dir p (Branch.Name show) (Branch.Name grp)
                (Branch.Name unit) (Branch.Name b)
                (children dir (files w)) w) with (taskMap := @nil (string * TaskBranch.t))
      as [tm [S R]].
    { intros f I. eapply children_exist; eauto. apply incl_refl. }
    { apply no_inherited_task_spec. exact Hinh. }
    assert (Hh : has tm task version).
    { apply (R name).
      - apply children_complete with (n := FileNode);
          [exact Nd | exact Nn | exact Hplain | now apply assoc_In].
      - exact Hfile.
      - unfold name. rewrite scene_name_split.
        rewrite (decodeName_encoded _ _ _ _ Hver). now rewrite Hacc. }
    destruct (scanFiles_invariant _ _ _ _ _ _ _ _ _ _ S) as [_ [W _]].
    assert (Wf : wf_taskMap tm)
      by (apply W; split; [constructor | now intros ? ? []]).
    destruct Hh as [t0 [A I]]. apply assoc_In in A.
    exists (sortTasks (map (fun kv => sortVersions (snd kv)) (forIn tm))),
           (sortVersions t0).
    split.
    { unfold Tasks, ProgramAt, js_get. monad. rewrite Hpd, Hprog. simpl.
      fold b. fold dir. rewrite Hdir. simpl. rewrite Hpg.
      rewrite Hshow, Hgrp, Hunit. rewrite Hdir. now rewrite S. }
    assert (In0 : In (sortVersions t0)
              (sortTasks (map (fun kv => sortVersions (snd kv)) (forIn tm))))
      by (apply In_sortTasks; now exists task, t0).
    split; [exact In0|].
    split; [simpl; now apply (proj2 Wf task t0)|].
    split; [simpl; now apply sort_strings_In|].
    intros t' I' E.
    eapply NoDup_map_eq with (f := TaskBranch.Name);
      [apply task_names_NoDup; exact Wf | exact I' | exact In0 |].
    rewrite E. simpl. symmetry. now apply (proj2 Wf task t0).
Qed.

Lemma scene_roundtrip_witness :
  exists ts t,
    Tasks Example.g Example.compPart "nuke" Example.studio
    = (Ok ts, Example.studio) /\
    In t ts /\ TaskBranch.Name t = "layout_fix" /\
    In "v001" (TaskBranch.Versions t).
Proof.
  destruct (@scene_roundtrip Example.g Example.compPart "nuke" "scenes"
              [("nuke", "scenes")] Example.nuke
              Example.sh01 Example.g1 Example.u1 "layout_fix" "v001"
              (Some "2775") Example.studio)
    as [_ [ts [t [H1 [H2 [H3 [H4 _]]]]]]];
    try reflexivity.
  exists ts, t. repeat split; assumption.
Defined.

(** C3, as stated, fails for a version the version rule rejects: the
    scene of main at version "v000" is encoded, the file is in the
    directory, and the discovery returns no task at all. *)
Lemma scene_roundtrip_counterexample :
  TaskBranch_Scene (newTaskBranch Example.compPart "main" (Own Example.nuke)
                      Example.scenes) (Some "v000")
  = Ok (path_join Example.scenes "sh01_g1_u1_comp_main_v000.nk") /\
  assoc (path_join Example.scenes "sh01_g1_u1_comp_main_v000.nk")
        (files Example.zeroOnly) = Some FileNode /\
  Tasks Example.g Example.compPart "nuke" Example.zeroOnly
  = (Ok [], Example.zeroOnly).
Proof. repeat split. Qed.

(** ** Claims on the scene lifecycle *)

Lemma lastVersion_last (vs : list string) (v : string) :
  lastVersion (vs ++ [v]) = Some v.
Proof.
  unfold lastVersion. rewrite last_last. now destruct vs.
Qed.

Lemma findTask_In (task : string) (ts : list TaskBranch.t) (t : TaskBranch.t) :
  NoDup (map TaskBranch.Name ts) -> In t ts -> TaskBranch.Name t = task ->
  findTask task ts = Some t.
Proof.
  induction ts as [|t0 ts IH]; intros ND I E; [now destruct I|].
  inversion ND as [|? ? N ND']; subst. simpl.
  destruct I as [->|I]; [now rewrite String.eqb_refl|].
  destruct (String.eqb_spec (TaskBranch.Name t0) (TaskBranch.Name t)) as [E|_].
  - exfalso. apply N. rewrite E. now apply in_map.
  - now apply IH.
Qed.

Lemma findTask_None (task : string) (ts : list TaskBranch.t) :
  (forall t, In t ts -> TaskBranch.Name t <> task) -> findTask task ts = None.
Proof.
  induction ts as [|t0 ts IH]; intros H; simpl; [reflexivity|].
  destruct (String.eqb_spec (TaskBranch.Name t0) task) as [E|_].
  - exfalso. apply (H t0); [now left | exact E].
  - apply IH. intros t I. apply H. now right.
Qed.

Lemma sorted_last_greatest (vs : list string) (v : string) :
  StronglySorted (fun a b => str_le a b = true) (vs ++ [v]) ->
  forall v', In v' (vs ++ [v]) -> str_le v' v = true.
Proof.
  induction vs as [|x vs IH]; simpl; intros S v' I.
  - destruct I as [<-|[]].
    destruct (str_le v v) eqn:E; [reflexivity|].
    pose proof (str_le_total _ _ E). congruence.
  - inversion S as [|? ? S' F]; subst. destruct I as [<-|I].
    + rewrite Forall_forall in F. apply F. apply in_or_app. right. now left.
    + now apply IH.
Qed.

(** What [Tasks] returns holds each name once, and each task has its
    versions in ascending order, at least one. *)
Lemma Tasks_names_versions g this prog w ts w' :
  Tasks g this prog w = (Ok ts, w') ->
  w' = w /\
  NoDup (map TaskBranch.Name ts) /\
  forall t, In t ts ->
    TaskBranch.Versions t <> [] /\
    StronglySorted (fun a b => str_le a b = true) (TaskBranch.Versions t).
Proof.
  intros HT. apply Tasks_inv in HT as [-> [->|[tm [W ->]]]].
  - split; [reflexivity|]. split; [constructor | now intros t []].
  - split; [reflexivity|]. split; [now apply task_names_NoDup|].
    intros t I. apply In_sortTasks in I as [k [t0 [I ->]]]. simpl. split.
    + intros E. apply sort_strings_nil in E. now apply (proj2 W k t0 I).
    + apply sort_strings_sorted.
Qed.

(** C4.  [OpenTask] runs the discovery and opens the task of the given
    name.  Without a version it opens the scene of the last entry of
    the discovered version list of that task, which is the greatest one
    in the order of the sort: with "v001" and "v003" on disk it launches
    the program on the scene of "v003".  When the discovery holds no
    version for the task, [OpenTask] raises an error and launches
    nothing; a task the discovery returns always has a version.  [Scene]
    and [Open] themselves read an omitted version as the last entry of a
    list that is not empty. *)
Theorem open_resolves_last_version
    (g : Globals) (this : PartBranch.t) (prog task : string)
    (ver : option string) (w w' : World) (ts : list TaskBranch.t) :
  falsy ver = true ->
  Tasks g this prog w = (Ok ts, w') ->
  (forall t vs v, TaskBranch.Versions t = vs ++ [v] ->
     TaskBranch_Scene t ver = TaskBranch_Scene t (Some v) /\
     TaskBranch_Open g t ver = TaskBranch_Open g t (Some v)) /\
  (forall t, In t ts -> TaskBranch.Versions t <> []) /\
  (forall t, In t ts -> TaskBranch.Name t = task ->
     exists vs v,
       TaskBranch.Versions t = vs ++ [v] /\
       (forall v', In v' (TaskBranch.Versions t) -> str_le v' v = true) /\
       OpenTask g this prog task ver w = TaskBranch_Open g t (Some v) w) /\
  ((forall t, In t ts -> TaskBranch.Name t <> task) ->
   OpenTask g this prog task ver w
   = (Throw (Error ("no task for " ++ prog ++ " program: " ++ task)), w)) /\
  OpenTask Example.g Example.compPart "nuke" "main" None Example.twoVersions
  = (Ok tt,
     {| files := files Example.twoVersions;
        launched :=
          [Async {| cmd := "/site/runner/nuke_open.sh";
                    args := [path_join Example.scenes
                               "sh01_g1_u1_comp_main_v003.nk"];
                    env := None; detached := false; detach := true |}] |}) /\
  OpenTask Example.g Example.compPart "nuke" "main" None Example.zeroOnly
  = (Throw (Error "no task for nuke program: main"), Example.zeroOnly).
Proof.
  intros Hf HT.
  assert (S : forall t vs v, TaskBranch.Versions t = vs ++ [v] ->
                TaskBranch_Scene t ver = TaskBranch_Scene t (Some v)).
  { intros t vs v Hv. unfold TaskBranch_Scene.
    rewrite Hf, Hv, lastVersion_last.
    destruct (falsy (Some v)); reflexivity. }
  destruct (Tasks_names_versions _ _ _ _ HT) as [-> [ND V]].
  split; [|split; [|split; [|split; [|split]]]].
  - intros t vs v Hv. split; [now apply (S t vs)|].
    unfold TaskBranch_Open. now rewrite (S t vs v Hv).
  - intros t I. now apply V.
  - intros t I E. destruct (V t I) as [NE Sd].
    destruct (exists_last NE) as [vs [v Hv]].
    exists vs, v. split; [exact Hv|]. split.
    + rewrite Hv in *. now apply sorted_last_greatest.
    + unfold OpenTask, Task, bind at 1 2. rewrite HT.
      rewrite (@findTask_In _ _ _ ND I E). unfold ret.
      unfold TaskBranch_Open. now rewrite (S t vs v Hv).
  - intros H. unfold OpenTask, Task, bind at 1 2. rewrite HT.
    now rewrite (@findTask_None _ _ H).
  - reflexivity.
  - reflexivity.
Qed.

Lemma open_resolves_last_version_witness :
  falsy None = true /\
  Tasks Example.g Example.compPart "nuke" Example.studio
  = (Ok Example.discovered, Example.studio) /\
  OpenTask Example.g Example.compPart "nuke" "absent" None Example.studio
  = (Throw (Error "no task for nuke program: absent"), Example.studio).
Proof.
  split; [reflexivity|]. split; [reflexivity|].
  apply (@open_resolves_last_version Example.g Example.compPart "nuke" "absent"
           None Example.studio Example.studio Example.discovered);
    [reflexivity | reflexivity |].
  intros t [<-|[<-|[]]]; discriminate.
Defined.

Lemma listeners_collect_stderr (chunks : list string) (st : listeners) :
  fold_left on_event (map StderrData chunks) st
  = {| stderr := (stderr st ++ String.concat "" chunks)%string;
       handled := handled st |}.
Proof.
  revert st. induction chunks as [|c chunks IH]; intros [s h]; simpl.
  - now rewrite append_nil_r.
  - rewrite IH. simpl. f_equal.
    destruct chunks; simpl.
    + now rewrite !append_nil_r.
    + now rewrite append_assoc.
Qed.

(** C5.  For a spawned program that writes to its error stream and
    then ends, the error handler is called exactly once when the exit
    code is not 0, with an error whose message holds the code and the
    text captured from the error stream; exactly once with the error
    itself when the program could not be started; and not at all when
    the exit code is 0.  Exit code 2 after "boom" gives the one message
    "exit with error 2: boom". *)
Theorem spawn_reports_failure_once
    (chunks : list string) (code : option Z) (err : exn) :
  handled (spawn_listeners (map StderrData chunks ++ [ExitEvent code]))
  = (if code_nonzero code
     then [Error ("exit with error " ++ string_of_code code ++ ": "
                  ++ String.concat "" chunks)]
     else []) /\
  handled (spawn_listeners (map StderrData chunks ++ [ErrorEvent err]))
  = [err] /\
  handled (spawn_listeners (map StderrData chunks ++ [ExitEvent (Some 0%Z)]))
  = [] /\
  handled (spawn_listeners [StderrData "boom"; ExitEvent (Some 2%Z)])
  = [Error "exit with error 2: boom"].
Proof.
  unfold spawn_listeners.
  rewrite !fold_left_app, !listeners_collect_stderr. simpl.
  repeat split. now destruct (code_nonzero code).
Qed.

(** ** The environment of the hard-coded model *)

Lemma env_set_same (k v : string) (e : list (string * string)) :
  assoc k (Legacy.env_set k v e) = Some v.
Proof.
  unfold Legacy.env_set. destruct (assoc k e) as [v0|] eqn:E.
  - now rewrite (assoc_update_same _ _ _ E).
  - rewrite assoc_app, E. simpl. now rewrite String.eqb_refl.
Qed.

Lemma env_set_other (k k' v : string) (e : list (string * string)) :
  k' <> k -> assoc k' (Legacy.env_set k v e) = assoc k' e.
Proof.
  intros N. unfold Legacy.env_set. destruct (assoc k e) as [v0|] eqn:E.
  - now apply assoc_update_other.
  - rewrite assoc_app. destruct (assoc k' e); [reflexivity|].
    simpl. now destruct (String.eqb_spec k' k).
Qed.

Lemma env_fold_keeps (l e : list (string * string)) (k : string) :
  ~ In k (keys l) ->
  assoc k (fold_left (fun acc kv => Legacy.env_set (fst kv) (snd kv) acc) l e)
  = assoc k e.
Proof.
  revert e. induction l as [|[k0 v0] l IH]; intros e N; simpl; [reflexivity|].
  rewrite IH by (intros I; apply N; now right).
  apply env_set_other. intros ->. apply N. now left.
Qed.

Lemma env_fold_sets (l e : list (string * string)) (k v : string) :
  NoDup (keys l) -> In (k, v) l ->
  assoc k (fold_left (fun acc kv => Legacy.env_set (fst kv) (snd kv) acc) l e)
  = Some v.
Proof.
  revert e. induction l as [|[k0 v0] l IH]; intros e ND I; [now destruct I|].
  inversion ND as [|? ? N ND']; subst. simpl. destruct I as [E|I].
  - injection E as -> ->. rewrite env_fold_keeps by exact N.
    apply env_set_same.
  - now apply IH.
Qed.

(** Every variable of [SceneEnviron] is in the merged environment with
    its value. *)
Lemma env_merge_SceneEnviron
    (projectRoot : string) (this : Legacy.Category.t)
    (prj grp unit part task : string) (e : list (string * string))
    (k v : string) :
  In (k, v) (Legacy.SceneEnviron projectRoot this prj grp unit part task) ->
  assoc k (Legacy.env_merge e
             (Legacy.SceneEnviron projectRoot this prj grp unit part task))
  = Some v.
Proof.
  intros I. unfold Legacy.env_merge.
  change (forIn (Legacy.SceneEnviron projectRoot this prj grp unit part task))
    with (Legacy.SceneEnviron projectRoot this prj grp unit part task).
  apply env_fold_sets; [|exact I].
  unfold Legacy.SceneEnviron, keys. simpl.
  repeat (constructor; [simpl; intuition discriminate|]). constructor.
Qed.

Lemma keepDirs_world (d : string) (fs cds : list string) (w : World) :
  snd (Legacy.keepDirs d fs cds w) = w.
Proof.
  revert cds. induction fs as [|f fs IH]; intros cds; simpl; [reflexivity|].
  monad. destruct (assoc _ (files w)); [apply IH | reflexivity].
Qed.

Lemma childDirs_world (d : string) (w : World) : snd (Legacy.childDirs d w) = w.
Proof.
  unfold Legacy.childDirs. monad.
  destruct (assoc d (files w)) as [n|] eqn:D; simpl; [|reflexivity].
  rewrite D. destruct n; try reflexivity. apply keepDirs_world.
Qed.

Lemma assoc_map_values (A B : Type) (f : A -> B) (k : string)
    (l : list (string * A)) :
  assoc k (map (fun kv => (fst kv, f (snd kv))) l) = option_map f (assoc k l).
Proof.
  induction l as [|[k' v] l IH]; simpl; [reflexivity|].
  now destruct (k =? k')%string.
Qed.

(** The enumeration order of [for-in] does not change what a name is
    bound to. *)
Lemma assoc_insert_sorted (A : Type) (le : string * A -> string * A -> bool)
    (x : string * A) (s : list (string * A)) (k : string) :
  (forall y, fst y = fst x -> le x y = true) ->
  assoc k (insert_sorted le x s) = assoc k (x :: s).
Proof.
  intros R. destruct x as [kx vx].
  induction s as [|[ky vy] s IH]; simpl; [reflexivity|].
  destruct (le (kx, vx) (ky, vy)) eqn:L; simpl; [reflexivity|].
  simpl in IH. rewrite IH.
  destruct (String.eqb_spec k kx) as [->|_]; [|reflexivity].
  destruct (String.eqb_spec kx ky) as [<-|_]; [|reflexivity].
  rewrite (R (kx, vy)) in L by reflexivity. discriminate L.
Qed.

Lemma assoc_sort_by (A : Type) (le : string * A -> string * A -> bool)
    (l : list (string * A)) (k : string) :
  (forall x y, fst y = fst x -> le x y = true) ->
  assoc k (sort_by le l) = assoc k l.
Proof.
  intros R. induction l as [|[kx vx] l IH]; simpl; [reflexivity|].
  rewrite assoc_insert_sorted by (intros y; apply R).
  simpl. now rewrite IH.
Qed.

Lemma assoc_filter (A : Type) (p : string * A -> bool) (P : string -> bool)
    (l : list (string * A)) (k : string) :
  (forall kv, p kv = P (fst kv)) ->
  assoc k (filter p l) = if P k then assoc k l else None.
Proof.
  intros H. induction l as [|[k' v] l IH]; simpl; [now destruct (P k)|].
  rewrite H. simpl. destruct (P k') eqn:Pk'; simpl; rewrite IH;
    destruct (String.eqb_spec k k') as [->|_]; try reflexivity;
    now rewrite Pk'.
Qed.

Lemma assoc_forIn (A : Type) (o : list (string * A)) (k : string) :
  assoc k (forIn o) = assoc k o.
Proof.
  unfold forIn. rewrite assoc_app.
  rewrite assoc_sort_by
    by (intros x y E; rewrite E; apply Z.leb_refl).
  rewrite (assoc_filter (@isIndexKey A)
             (fun k => match arrayIndex k with Some _ => true | None => false end))
    by reflexivity.
  rewrite (assoc_filter (fun kv : string * A => negb (isIndexKey kv))
             (fun k => negb (match arrayIndex k with
                             | Some _ => true | None => false end)))
    by reflexivity.
  destruct (arrayIndex k); simpl; [now destruct (assoc k o) | reflexivity].
Qed.

(** A variable [SceneEnviron] does not set keeps the value the process
    environment gives it, or stays unset. *)
Lemma env_merge_keeps
    (projectRoot : string) (this : Legacy.Category.t)
    (prj grp unit part task : string) (lenv : list (string * string))
    (k : string) :
  ~ In k (keys (Legacy.SceneEnviron projectRoot this prj grp unit part task)) ->
  assoc k (Legacy.env_merge (Legacy.cloneEnv lenv)
             (Legacy.SceneEnviron projectRoot this prj grp unit part task))
  = assoc k lenv.
Proof.
  intros N. unfold Legacy.env_merge.
  change (forIn (Legacy.SceneEnviron projectRoot this prj grp unit part task))
    with (Legacy.SceneEnviron projectRoot this prj grp unit part task).
  rewrite env_fold_keeps by exact N.
  apply assoc_forIn.
Qed.

(** Every program a category of the site registers is made by one of
    [newMayaAt], [newHoudiniAt] and [newNukeAt] at a directory computed
    from the part directory, under a name that is not empty. *)
Lemma declared_program
    (lsite projectRoot lplatform : string)
    (run : Invocation -> FS -> FS * exit_status)
    (ctg : string) (this : Legacy.Category.t) (part prog : string)
    (pgs : list (string * (string -> Legacy.Program.t)))
    (mk : string -> Legacy.Program.t) :
  In (ctg, this) (Legacy.category lsite projectRoot lplatform run) ->
  assoc part (Legacy.Category.programs this) = Some pgs ->
  assoc prog pgs = Some mk ->
  prog <> "" /\
  exists name ext f,
    forall d, mk d = Legacy.newProgramAt lsite lplatform run name ext (f d).
Proof.
  intros [E|[E|[]]] Hp Hg; injection E as <- <-; simpl in Hp;
    repeat match type of Hp with
           | (if ?b then _ else _) = Some _ => destruct b
           end;
    try discriminate Hp; injection Hp as <-; simpl in Hg;
    repeat match type of Hg with
           | (if (?k =? ?s)%string then _ else _) = Some _ =>
               destruct (String.eqb_spec k s) as [->|_]
           end;
    try discriminate Hg; injection Hg as <-;
    (split; [discriminate|]);
    repeat eexists; intros d;
    unfold Legacy.newMayaAt, Legacy.newHoudiniAt, Legacy.newNukeAt;
    match goal with
    | |- Legacy.newProgramAt _ _ _ _ _ ?x = _ =>
        pattern d at 1;
        match goal with
        | |- (fun d0 => Legacy.newProgramAt _ _ _ _ _ (@?h d0) = _) _ =>
            instantiate (1 := h)
        end
    end; reflexivity.
Qed.

(** C6 (as amended).  Each launcher command, for creating and for
    opening a scene, is given the scene path as its one argument.  The
    schema-driven calls pass no environment option.  In the hard-coded
    model, for every program a category of the site registers for a
    part (the Nuke of the fx part, made at the precomp directory,
    included), the command is the create or open runner of the program
    and gets an environment that is the process environment overlaid
    with the variables of [SceneEnviron]: PRJ, GROUP, SHOT, PART, TASK,
    PRJD, GROUPD, SHOTD and PARTD have the names of project, group,
    unit, part and task and the directories of project, group, unit and
    part, and every other variable is as in the process environment. *)
Theorem launcher_invocation
    (g : Globals) (t : TaskBranch.t) (ver : option string)
    (scene createCmd openCmd : string) (w : World)
    (lsite projectRoot lplatform : string) (lenv : list (string * string))
    (run : Invocation -> FS -> FS * exit_status)
    (ctg : string) (this : Legacy.Category.t)
    (prj grp unit part task prog : string) (lver : option string)
    (pgs : list (string * (string -> Legacy.Program.t)))
    (mk : string -> Legacy.Program.t) :
  let p := mk (Legacy.PartDir this prj grp unit part) in
  let lscene := Legacy.SceneName p prj grp unit part task lver in
  let vars :=
    [ ("PRJ", prj); ("GROUP", grp); ("SHOT", unit); ("PART", part);
      ("TASK", task);
      ("PRJD", Legacy.ProjectDir projectRoot prj);
      ("GROUPD", Legacy.GroupDir this prj grp);
      ("SHOTD", Legacy.UnitDir this prj grp unit);
      ("PARTD", Legacy.PartDir this prj grp unit part) ] in
  let overlaid (e : list (string * string)) :=
    (forall k v, In (k, v) vars -> assoc k e = Some v) /\
    (forall k, ~ In k (keys vars) -> assoc k e = assoc k lenv) in
  TaskBranch_Scene t ver = Ok scene ->
  commandFor g (TaskBranch.Program t) Program.CreateCmd = Ok createCmd ->
  commandFor g (TaskBranch.Program t) Program.OpenCmd = Ok openCmd ->
  In (ctg, this) (Legacy.category lsite projectRoot lplatform run) ->
  assoc part (Legacy.Category.programs this) = Some pgs ->
  assoc prog pgs = Some mk ->
  (assoc scene (files w) = None ->
   exists i,
     launched (snd (TaskBranch_Create g t ver w)) = launched w ++ [Sync i] /\
     cmd i = path_join (siteRoot g) createCmd /\ args i = [scene] /\
     env i = None) /\
  (exists i,
     TaskBranch_Open g t ver w
     = (Ok tt, {| files := files w; launched := launched w ++ [Async i] |}) /\
     cmd i = path_join (siteRoot g) openCmd /\ args i = [scene] /\
     env i = None) /\
  (forall parts,
     fst (Legacy.PartsOf this prj grp unit w) = Ok parts ->
     In part parts -> task <> "" ->
     exists i e,
       launched (snd (Legacy.CreateTask projectRoot lenv this
                        prj grp unit part task lver prog w))
       = launched w ++ [Sync i] /\
       cmd i = (if lplatform =? "win32"
                then lsite ++ "/runner/" ++ Legacy.Program.Name p ++ "_create.bat"
                else lsite ++ "/runner/" ++ Legacy.Program.Name p ++ "_create.sh")%string /\
       args i = [lscene] /\ env i = Some e /\ overlaid e) /\
  (exists i e,
     Legacy.OpenTask projectRoot lenv this prj grp unit part task prog lver w
     = (Ok tt, {| files := files w; launched := launched w ++ [Async i] |}) /\
     cmd i = (if lplatform =? "win32"
              then lsite ++ "/runner/" ++ Legacy.Program.Name p ++ "_open.bat"
              else lsite ++ "/runner/" ++ Legacy.Program.Name p ++ "_open.sh")%string /\
     args i = [lscene] /\ env i = Some e /\ overlaid e).
Proof.
  intros p lscene vars overlaid HS Hc Ho Hctg Hpgs Hprog.
  set (sceneEnv := Legacy.SceneEnviron projectRoot this prj grp unit part task).
  destruct (@declared_program _ _ _ _ _ _ _ _ _ _ Hctg Hpgs Hprog)
    as [Hprg [name [ext [f Hmk]]]].
  assert (Hprogs : Legacy.ProgramsOf this prj grp unit part
                   = Ok (map (fun kv =>
                                (fst kv, snd kv (Legacy.PartDir this prj grp unit part)))
                             (forIn pgs))).
  { unfold Legacy.ProgramsOf, js_get. now rewrite Hpgs. }
  assert (Hget : js_get (map (fun kv =>
                                (fst kv, snd kv (Legacy.PartDir this prj grp unit part)))
                             (forIn pgs)) prog = Own p).
  { unfold js_get.
    rewrite (assoc_map_values
               (fun mk : string -> Legacy.Program.t =>
                  mk (Legacy.PartDir this prj grp unit part))).
    now rewrite assoc_forIn, Hprog. }
  assert (Hov : overlaid (Legacy.env_merge (Legacy.cloneEnv lenv) sceneEnv)).
  { split.
    - intros k v I. now apply env_merge_SceneEnviron.
    - intros k N. now apply env_merge_keeps. }
  assert (Hp : p = Legacy.newProgramAt lsite lplatform run name ext
                     (f (Legacy.PartDir this prj grp unit part)))
    by apply Hmk.
  split; [|split; [|split]].
  - intros Hnew. unfold TaskBranch_Create. monad. rewrite HS. simpl.
    rewrite Hnew, Hc. unfold execFileSync. simpl.
    destruct (runCommand g _ (files w)) as [fs' st].
    destruct st as [[| |]| |];
      (eexists; split; [reflexivity | repeat split]).
  - unfold TaskBranch_Open. monad. rewrite HS, Ho. simpl.
    eexists. split; [reflexivity | repeat split].
  - intros parts Hparts Hin Htask. unfold Legacy.CreateTask. monad.
    pose proof (childDirs_world (Legacy.Category.partRoot this prj grp unit) w) as Sw.
    unfold Legacy.PartsOf in *.
    destruct (Legacy.childDirs _ w) as [r w1]. simpl in Hparts, Sw. subst r w1.
    assert (E : existsb (String.eqb part) parts = true).
    { apply existsb_exists. exists part. split; [exact Hin | apply String.eqb_refl]. }
    rewrite E. simpl.
    destruct (String.eqb_spec (Legacy.PartDir this prj grp unit part) "") as [Z|_].
    { unfold Legacy.PartDir in Z. now apply append_cons_not_empty in Z. }
    destruct (String.eqb_spec task ""); [congruence|].
    destruct (String.eqb_spec prog ""); [congruence|].
    rewrite Hprogs, Hget. unfold lscene. rewrite Hp. simpl.
    unfold execFileSync. simpl.
    destruct (run _ (files w)) as [fs' st].
    destruct st as [[| |]| |];
      (eexists; eexists;
       split; [reflexivity
              | split; [reflexivity
                       | split; [reflexivity | split; [reflexivity | exact Hov]]]]).
  - unfold Legacy.OpenTask. monad. rewrite Hprogs, Hget.
    unfold lscene. rewrite Hp. simpl.
    eexists. eexists.
    split; [reflexivity
           | split; [reflexivity
                    | split; [reflexivity | split; [reflexivity | exact Hov]]]].
Qed.

Lemma launcher_invocation_witness :
  exists i e,
    Legacy.OpenTask "/site/project" [("HOME", "/home/artist")] Example.legacyShot
      "prj1" "g1" "u1" "fx" "main" "nuke" (Some "v001") Example.legacyWorld
    = (Ok tt, {| files := files Example.legacyWorld; launched := [Async i] |}) /\
    cmd i = "/site/runner/nuke_open.sh" /\
    args i = ["/site/project/prj1/shot/g1/u1/work/fx/precomp/prj1_g1_u1_fx_main_v001.nk"] /\
    env i = Some e /\
    assoc "PARTD" e = Some "/site/project/prj1/shot/g1/u1/work/fx" /\
    assoc "HOME" e = Some "/home/artist".
Proof.
  destruct (@launcher_invocation Example.g (Example.mainTask ["v001"]) None
              (path_join Example.scenes "sh01_g1_u1_comp_main_v001.nk")
              "runner/nuke_create.sh" "runner/nuke_open.sh" Example.legacyWorld
              "/site" "/site/project" "linux" [("HOME", "/home/artist")]
              (fun _ fs => (fs, Exited 0)) "shot" Example.legacyShot
              "prj1" "g1" "u1" "fx" "main" "nuke" (Some "v001")
              [("houdini", fun taskDir =>
                             Legacy.newHoudiniAt "/site" "linux"
                               (fun _ fs => (fs, Exited 0)) taskDir);
               ("nuke", fun taskDir =>
                          Legacy.newNukeAt "/site" "linux"
                            (fun _ fs => (fs, Exited 0)) (taskDir ++ "/precomp")%string)]
              (fun taskDir =>
                 Legacy.newNukeAt "/site" "linux"
                   (fun _ fs => (fs, Exited 0)) (taskDir ++ "/precomp")%string))
    as [_ [_ [_ [i [e [H1 [H2 [H3 [H4 [H5 H6]]]]]]]]]];
    try reflexivity; try (now left).
  exists i, e. repeat split; try assumption.
  - apply H5. simpl. tauto.
  - rewrite H6; [reflexivity|]. simpl. intuition discriminate.
Defined.

(** C6, as stated, fails in both models.  The schema-driven [Open]
    gives the program no environment of its own, so it runs in the
    process environment, which names no show; the hard-coded model has
    no variable for the category. *)
Lemma launcher_environment_counterexample :
  (exists i,
     launched (snd (TaskBranch_Open Example.g (Example.mainTask ["v001"]) None
                      Example.studio)) = [Async i] /\
     args i = [path_join Example.scenes "sh01_g1_u1_comp_main_v001.nk"] /\
     mentions (child_env Example.g i) "sh01" = false) /\
  (exists i e,
     launched (snd (Legacy.OpenTask "/site/project" [] Example.legacyShot
                      "prj1" "g1" "u1" "comp" "main" "nuke" (Some "v001")
                      Example.legacyWorld)) = [Async i] /\
     env i = Some e /\
     mentions e (Legacy.Category.Name Example.legacyShot) = false).
Proof.
  split.
  - eexists. split; [reflexivity|]. split; reflexivity.
  - eexists. eexists. split; [reflexivity|]. split; reflexivity.
Qed.

(** ** Claims on the branch model *)

Lemma In_ValidCategories (g : Globals) (name : string) :
  existsb (String.eqb name) (ValidCategories g) = true <->
  In name (keys (SiteInfo.categories (siteInfo g))).
Proof.
  unfold ValidCategories. rewrite existsb_exists. split.
  - intros [x [I E]]. apply String.eqb_eq in E. subst x.
    exact (proj1 (sort_strings_In _ _) I).
  - intros I. exists name. split;
      [exact (proj2 (sort_strings_In _ _) I) | apply String.eqb_refl].
Qed.

(** C7 (as amended).  At the show, group and unit levels, Get builds
    the branch and looks for its directory: it raises an error when the
    directory is absent and returns the branch when it is there.  At
    the category level Get looks at the schema only: it returns a
    branch exactly for a declared category name.  None of them changes
    the file system. *)
Theorem get_checks_directory
    (g : Globals) (w : World) (show category group : Branch.t)
    (showName categoryName groupName unitName : string)
    (groupBranch unitBranch : Branch.t) :
  GroupBranch g category groupName = Ok groupBranch ->
  UnitBranch g group unitName = Ok unitBranch ->
  let showBranch := ShowBranch g showName in
  (assoc (Branch.Dir showBranch) (files w) = None ->
   Show g showName w = (Throw (Error ("show not exists: " ++ showName)), w)) /\
  (assoc (Branch.Dir showBranch) (files w) <> None ->
   Show g showName w = (Ok showBranch, w)) /\
  (assoc (Branch.Dir groupBranch) (files w) = None ->
   Group g category groupName w
   = (Throw (Error ("no group: " ++ groupName)), w)) /\
  (assoc (Branch.Dir groupBranch) (files w) <> None ->
   Group g category groupName w = (Ok groupBranch, w)) /\
  (assoc (Branch.Dir unitBranch) (files w) = None ->
   Unit g group unitName w = (Throw (Error ("no unit: " ++ unitName)), w)) /\
  (assoc (Branch.Dir unitBranch) (files w) <> None ->
   Unit g group unitName w = (Ok unitBranch, w)) /\
  ((exists b, Category g show categoryName = Ok b) <->
   In categoryName (keys (SiteInfo.categories (siteInfo g)))).
Proof.
  intros Hg Hu showBranch.
  unfold Show, Group, Unit. monad. fold showBranch. rewrite Hg, Hu.
  repeat split.
  - now intros ->.
  - destruct (assoc (Branch.Dir showBranch) (files w));
      [reflexivity | congruence].
  - now intros ->.
  - destruct (assoc (Branch.Dir groupBranch) (files w));
      [reflexivity | congruence].
  - now intros ->.
  - destruct (assoc (Branch.Dir unitBranch) (files w));
      [reflexivity | congruence].
  - intros [b H]. unfold Category, CategoryBranch in H.
    destruct (existsb (String.eqb categoryName) (ValidCategories g)) eqn:E;
      [now apply In_ValidCategories | discriminate].
  - intros I. apply In_ValidCategories in I.
    unfold Category, CategoryBranch. rewrite I. simpl. eauto.
Qed.

(** The three Gets that read the file system leave the world as it
    is, whatever they return. *)
Lemma get_changes_nothing (g : Globals) (w : World) (this : Branch.t)
    (name : string) :
  snd (Show g name w) = w /\ snd (Group g this name w) = w /\
  snd (Unit g this name w) = w.
Proof.
  unfold Show, Group, Unit. monad. repeat split.
  - now destruct (assoc _ (files w)).
  - destruct (GroupBranch g this name); [|reflexivity].
    now destruct (assoc _ (files w)).
  - destruct (UnitBranch g this name); [|reflexivity].
    now destruct (assoc _ (files w)).
Qed.

Lemma get_checks_directory_witness :
  Group Example.g Example.shot "g1" Example.fresh
  = (Throw (Error "no group: g1"), Example.fresh) /\
  Unit Example.g Example.g1 "u1" Example.studio
  = (Ok Example.u1, Example.studio).
Proof.
  destruct (@get_checks_directory Example.g Example.fresh
              Example.sh01 Example.shot Example.g1
              "sh01" "shot" "g1" "u1" Example.g1 Example.u1)
    as [_ [_ [H _]]]; try reflexivity.
  destruct (@get_checks_directory Example.g Example.studio
              Example.sh01 Example.shot Example.g1
              "sh01" "shot" "g1" "u1" Example.g1 Example.u1)
    as [_ [_ [_ [_ [_ [H' _]]]]]]; try reflexivity.
  split; [apply H; reflexivity | apply H'; discriminate].
Defined.

(** C7, as stated, fails at the category level: the category branch of
    a show is returned although no directory of it is on disk. *)
Lemma get_category_counterexample :
  exists b,
    Category Example.g Example.sh01 "shot" = Ok b /\
    assoc (Branch.Dir b) (files Example.fresh) = None.
Proof. eexists. split; reflexivity. Qed.

(** *** Create *)

Lemma makeDir_exists (g : Globals) (d perm : string) (w : World) :
  assoc d (files w) <> None ->
  makeDir g d perm w = (Throw (SystemError "EEXIST" d), w).
Proof.
  intros H. unfold makeDir, bind, mkdirSync.
  destruct (assoc d (files w)); [reflexivity | congruence].
Qed.

(** A [makeDir] that returns has made a directory that was not there,
    set its mode, and touched nothing else. *)
Lemma makeDir_ok (g : Globals) (d perm : string) (w w' : World) :
  platform g <> "win32" ->
  makeDir g d perm w = (Ok tt, w') ->
  assoc d (files w) = None /\
  assoc d (files w') = Some (DirNode (Some perm)) /\
  (forall p, p <> d -> assoc p (files w') = assoc p (files w)) /\
  launched w' = launched w.
Proof.
  intros Hp. unfold makeDir, bind, mkdirSync, chmodSync, ret.
  destruct (String.eqb_spec (platform g) "win32"); [congruence|].
  destruct (assoc d (files w)) eqn:E; [discriminate|].
  destruct (assoc (dirname d) (files w)) as [[m| |]|]; try discriminate.
  simpl.
  destruct (negb (isOctal perm) || (perm =? "")%string); [discriminate|].
  rewrite assoc_app, E. simpl. rewrite String.eqb_refl.
  intros [= <-]. simpl. split; [reflexivity|]. split; [|split; [|reflexivity]].
  - rewrite assoc_update_same with (v := DirNode None); [reflexivity|].
    rewrite assoc_app, E. simpl. now rewrite String.eqb_refl.
  - intros p N. rewrite assoc_update_other by exact N.
    rewrite assoc_app. destruct (assoc p (files w)); [reflexivity|].
    simpl. now destruct (String.eqb_spec p d).
Qed.

(** The loop shared by the four Create operations. *)
Lemma create_loop_ok (g : Globals) (dir : string) (ds : list Dir.t) :
  platform g <> "win32" ->
  forall w w',
    forEach ds (fun d => makeDir g (path_join dir (Dir.Name d)) (Dir.Perm d)) w
    = (Ok tt, w') ->
    (forall d, In d ds ->
       assoc (path_join dir (Dir.Name d)) (files w')
       = Some (DirNode (Some (Dir.Perm d)))) /\
    (forall p n, assoc p (files w) = Some n -> assoc p (files w') = Some n) /\
    launched w' = launched w.
Proof.
  intros Hp. induction ds as [|d ds IH]; intros w w' H; simpl in H.
  - injection H as <-. split; [now intros ? []|]. split; auto.
  - unfold bind in H.
    destruct (makeDir g (path_join dir (Dir.Name d)) (Dir.Perm d) w)
      as [[[]|e] w1] eqn:M; [|discriminate].
    apply makeDir_ok in M as [M0 [M1 [M2 M3]]]; [|exact Hp].
    apply IH in H as [H1 [H2 H3]].
    split; [|split].
    + intros d' [<-|I]; [now apply H2 | now apply H1].
    + intros p n A. apply H2. rewrite M2; [exact A|]. congruence.
    + congruence.
Qed.

Lemma creates_loop (g : Globals) (c : M unit) (b : Branch.t) (w : World) :
  creates g c b ->
  c w = forOf (Branch.Subdirs b)
          (fun d => makeDir g (path_join (Branch.Dir b) (Dir.Name d)) (Dir.Perm d))
          w.
Proof.
  intros [name | this name b' H | this name b' H | this name part H].
  - reflexivity.
  - unfold CreateGroup, bind, lift. now rewrite H.
  - unfold CreateUnit, bind, lift. now rewrite H.
  - unfold CreatePart, bind, lift. now rewrite H.
Qed.

(** C1 (as amended).  At the show, group, unit and part levels, Create
    builds the branch and makes, in the order of the schema, each
    declared subdirectory entry under the directory of the branch,
    with its declared permission; the directory of the branch itself is
    made only as such an entry.  A Create that returns leaves every
    declared entry on disk as a directory with its permission and keeps
    what was there before.  A Create whose first declared entry is on
    disk already fails with EEXIST and changes nothing; so a second
    Create after one that returned, with at least one declared entry,
    fails. *)
Theorem create_makes_declared_subdirs
    (g : Globals) (c : M unit) (b : Branch.t) (ds : list Dir.t)
    (w w' : World) :
  creates g c b ->
  platform g <> "win32" ->
  Branch.Subdirs b = Some ds ->
  c w = (Ok tt, w') ->
  (forall d, In d ds ->
     assoc (path_join (Branch.Dir b) (Dir.Name d)) (files w')
     = Some (DirNode (Some (Dir.Perm d)))) /\
  (forall p n, assoc p (files w) = Some n -> assoc p (files w') = Some n) /\
  (forall d ds' w0,
     ds = d :: ds' ->
     assoc (path_join (Branch.Dir b) (Dir.Name d)) (files w0) <> None ->
     c w0 = (Throw (SystemError "EEXIST"
                      (path_join (Branch.Dir b) (Dir.Name d))), w0)) /\
  (ds <> [] -> exists e, c w' = (Throw e, w')).
Proof.
  intros Hc Hp Hs H.
  rewrite (creates_loop w Hc), Hs in H. simpl in H.
  destruct (create_loop_ok g (Branch.Dir b) ds Hp _ H) as [H1 [H2 _]].
  assert (X : forall d ds' w0,
     ds = d :: ds' ->
     assoc (path_join (Branch.Dir b) (Dir.Name d)) (files w0) <> None ->
     c w0 = (Throw (SystemError "EEXIST"
                      (path_join (Branch.Dir b) (Dir.Name d))), w0)).
  { intros d ds' w0 -> A. rewrite (creates_loop w0 Hc), Hs. simpl.
    unfold bind. now rewrite (makeDir_exists g _ _ _ A). }
  repeat split; try assumption.
  intros N. destruct ds as [|d ds']; [congruence|].
  eexists. apply (X d ds' w' eq_refl).
  rewrite (H1 d (or_introl eq_refl)). discriminate.
Qed.

Lemma create_makes_declared_subdirs_witness :
  exists w',
    CreateShow Example.g "sh01" Example.fresh = (Ok tt, w') /\
    assoc "/shows/sh01/asset" (files w') = Some (DirNode (Some "0755")) /\
    exists e, CreateShow Example.g "sh01" w' = (Throw e, w').
Proof.
  eexists. split; [vm_compute; reflexivity|].
  destruct (@create_makes_declared_subdirs Example.g
              (CreateShow Example.g "sh01") (ShowBranch Example.g "sh01")
              [Example.dir "" "0755"; Example.dir "asset" "0755";
               Example.dir "shot" "2775"]
              Example.fresh
              (snd (CreateShow Example.g "sh01" Example.fresh))
              (creates_show Example.g "sh01"))
    as [H1 [_ [_ H4]]];
    [discriminate | reflexivity | vm_compute; reflexivity |].
  split.
  - apply (H1 (Example.dir "asset" "0755")). simpl. tauto.
  - apply H4. discriminate.
Defined.

(** C1, as stated, fails where the schema does not list the directory
    of the branch itself.  With no declared entry, Create returns
    without making the show directory, and so does a second Create;
    with the show directory on disk and one declared entry, Create
    returns instead of reporting that the directory exists. *)
Lemma create_counterexample :
  CreateShow Example.bare "sh01" Example.fresh = (Ok tt, Example.fresh) /\
  assoc (Branch.Dir (ShowBranch Example.bare "sh01")) (files Example.fresh)
  = None /\
  assoc (Branch.Dir (ShowBranch Example.assetOnly "sh01"))
        (files Example.emptyShow) <> None /\
  fst (CreateShow Example.assetOnly "sh01" Example.emptyShow) = Ok tt.
Proof. repeat split. discriminate. Qed.

(** ** Claims on the schema *)

Lemma mustHaveAttrs_ok (label : string) (m : list (string * json))
    (attrs : list string) :
  mustHaveAttrs label (JObj m) attrs = Ok tt ->
  forall a, In a attrs -> js_in a m = true.
Proof.
  induction attrs as [|a0 attrs IH]; simpl; [now intros _ ? []|].
  destruct (js_in a0 m) eqn:E; simpl; [|discriminate].
  intros H a [<-|I]; [exact E | now apply IH].
Qed.

(** A document that loads has the four top-level attributes. *)
Lemma validateSiteInfo_top (m : list (string * json)) :
  validateSiteInfo (JObj m) = Ok tt ->
  forall a, In a ["show"; "category"; "categories"; "programs"] ->
            js_in a m = true.
Proof.
  unfold validateSiteInfo, res_bind. intros H.
  apply mustHaveAttrs_ok with (label := "siteInfo").
  destruct (mustHaveAttrs "siteInfo" (JObj m) _) as [[]|]; [reflexivity | discriminate].
Qed.

(** [validatePartInfo] never reads the entries of [Subdirs]. *)
Lemma validatePartInfo_any_subdirs (label : string) (l s pd : json) :
  validatePartInfo label
    (JObj [("Label", l); ("Subdirs", s); ("ProgramDir", pd)]) = Ok tt.
Proof. reflexivity. Qed.

(** C2.  The load of the schema checks the permission strings of the
    show, category, group and unit subdirectories only: a document with
    every required attribute loads whatever the permission of a part
    subdirectory is, "775" of length 3 included, while the same
    permission on a unit subdirectory is refused. *)
Theorem validation_skips_part_permissions :
  (forall partPerm, validateSiteInfo (Example.siteJson "2775" partPerm) = Ok tt) /\
  validateSiteInfo (Example.siteJson "2775" "775") = Ok tt /\
  validateSiteInfo (Example.siteJson "775" "2775")
  = Throw (Thrown "siteInfo[categories][shot]").
Proof. repeat split. Qed.

(* ================================================================== *)
(** * Part III: further properties of the code *)
(* ================================================================== *)

(** ** Listings *)

Lemma keepDirectories_ok (d : string) (w : World) (ents : list string) :
  (forall e, In e ents -> exists n, assoc (path_join d e) (files w) = Some n) ->
  forall dirs,
    keepDirectories d ents dirs w
    = (Ok (dirs ++ filter (directoryAt w d) ents), w).
Proof.
  induction ents as [|e ents IH]; intros H dirs; simpl.
  - now rewrite app_nil_r.
  - monad. destruct (H e (or_introl eq_refl)) as [n Hn].
    unfold directoryAt at 1. rewrite Hn.
    rewrite IH by (intros e' I; apply H; now right).
    destruct n; simpl; try reflexivity. now rewrite <- app_assoc.
Qed.

Lemma listDirs_ok (d : string) (w : World) (m : option string) :
  d <> "" -> assoc d (files w) = Some (DirNode m) ->
  listDirs d w
  = (Ok (sort_strings (filter (directoryAt w d) (children d (files w)))), w).
Proof.
  intros Nd Hd. unfold listDirs. monad. rewrite Hd. simpl. rewrite Hd.
  rewrite keepDirectories_ok; [reflexivity|].
  intros e I. eapply children_exist; eauto. apply incl_refl.
Qed.

(** X1.  [listDirs] on a directory returns the names of its entries
    that are directories, and only those, in ascending order, and
    leaves the world as it is; on a path that is not on disk it raises
    an error. *)
Theorem listDirs_sorted_directories
    (d : string) (w : World) (m : option string) :
  d <> "" ->
  assoc d (files w) = Some (DirNode m) ->
  (exists ds,
     listDirs d w = (Ok ds, w) /\
     StronglySorted (fun a b => str_le a b = true) ds /\
     forall name,
       In name ds <->
       In name (children d (files w)) /\ directoryAt w d name = true) /\
  (forall w0, assoc d (files w0) = None ->
              exists msg, listDirs d w0 = (Throw (Error msg), w0)).
Proof.
  intros Nd Hd. split.
  - eexists. split; [eapply listDirs_ok; eauto|].
    split; [apply sort_strings_sorted|].
    intros name. rewrite sort_strings_In, filter_In. tauto.
  - intros w0 H0. eexists. unfold listDirs. monad. now rewrite H0.
Qed.

Lemma listDirs_sorted_directories_witness :
  listDirs "/shows/sh01" (Example.world Example.tree)
  = (Ok ["asset"; "shot"], Example.world Example.tree).
Proof.
  destruct (@listDirs_sorted_directories "/shows/sh01"
              (Example.world Example.tree) (Some "0755"))
    as [[ds [H _]] _]; [discriminate | reflexivity |].
  vm_compute. reflexivity.
Defined.

(** ** Constructors seen from outside *)

Lemma categoryInfoOf_parent (g : Globals) (parent : Branch.t)
    (ty ty' n n' d d' : string) (s s' : option (list Dir.t)) (c c' : string) :
  categoryInfoOf g (Branch.Build (Some parent) ty n d s c)
  = categoryInfoOf g (Branch.Build (Some parent) ty' n' d' s' c').
Proof. reflexivity. Qed.

(** What [GroupBranch] builds, and that the name plays no part in
    whether it builds. *)
Lemma GroupBranch_inv (g : Globals) (this : Branch.t) (name : string)
    (b : Branch.t) :
  GroupBranch g this name = Ok b ->
  exists ctg ci,
    js_get (SiteInfo.categories (siteInfo g)) ctg = Own ci /\
    forall name',
      GroupBranch g this name'
      = Ok (Branch.Build (Some this) "group" name'
              (path_join (Branch.ChildRoot this) name')
              (Some (BranchInfo.Subdirs (CategoryInfo.group ci)))
              (path_join (path_join (Branch.ChildRoot this) name')
                 (BranchInfo.ChildRoot (CategoryInfo.group ci)))).
Proof.
  unfold GroupBranch, categoryInfoOf, res_bind. simpl.
  destruct (if Branch.Type_ this =? "category" then Ok this
            else getParent this "category") as [c|e]; [|discriminate].
  destruct (js_get (SiteInfo.categories (siteInfo g)) (Branch.Name c))
    as [ci| |] eqn:J; try discriminate.
  intros _. exists (Branch.Name c), ci. split; [exact J | reflexivity].
Qed.

Lemma UnitBranch_inv (g : Globals) (this : Branch.t) (name : string)
    (b : Branch.t) :
  UnitBranch g this name = Ok b ->
  exists ctg ci,
    js_get (SiteInfo.categories (siteInfo g)) ctg = Own ci /\
    forall name',
      UnitBranch g this name'
      = Ok (Branch.Build (Some this) "unit" name'
              (path_join (Branch.ChildRoot this) name')
              (Some (BranchInfo.Subdirs (CategoryInfo.unit ci)))
              (path_join (path_join (Branch.ChildRoot this) name')
                 (BranchInfo.ChildRoot (CategoryInfo.unit ci)))).
Proof.
  unfold UnitBranch, categoryInfoOf, res_bind. simpl.
  destruct (if Branch.Type_ this =? "category" then Ok this
            else getParent this "category") as [c|e]; [|discriminate].
  destruct (js_get (SiteInfo.categories (siteInfo g)) (Branch.Name c))
    as [ci| |] eqn:J; try discriminate.
  intros _. exists (Branch.Name c), ci. split; [exact J | reflexivity].
Qed.

Lemma In_listed_directory (d : string) (w : World) (m : option string)
    (ds : list string) (name : string) :
  d <> "" -> assoc d (files w) = Some (DirNode m) ->
  listDirs d w = (Ok ds, w) -> In name ds ->
  directoryAt w d name = true.
Proof.
  intros Nd Hd L I. rewrite (@listDirs_ok _ _ _ Nd Hd) in L.
  injection L as <-. apply (proj1 (sort_strings_In _ _)) in I.
  now apply filter_In in I.
Qed.

(** A Get that builds its branch from the name and then asks for the
    directory, run over names that are directories. *)
Lemma collect_existing (w : World) (root : string) (names : list string)
    (get : string -> M Branch.t) (mk : string -> Branch.t) :
  (forall name, Branch.Dir (mk name) = path_join root name) ->
  (forall name w0,
     assoc (Branch.Dir (mk name)) (files w0) <> None ->
     get name w0 = (Ok (mk name), w0)) ->
  (forall name, In name names -> directoryAt w root name = true) ->
  collect names get w = (Ok (map mk names), w).
Proof.
  intros Hdir Hget. induction names as [|n names IH]; intros H; simpl.
  - reflexivity.
  - unfold bind. rewrite Hget.
    + rewrite IH by (intros x I; apply H; now right). reflexivity.
    + rewrite Hdir. specialize (H n (or_introl eq_refl)).
      unfold directoryAt in H.
      destruct (assoc (path_join root n) (files w)); [discriminate | discriminate].
Qed.

(** [Groups] and [Units] on a child root that is a directory: the
    branches of the listed names, in the order of the listing. *)
Lemma Groups_members (g : Globals) (w : World) (category : Branch.t)
    (m : option string) (probe : string) (gb : Branch.t) :
  Branch.ChildRoot category <> "" ->
  assoc (Branch.ChildRoot category) (files w) = Some (DirNode m) ->
  GroupBranch g category probe = Ok gb ->
  exists bs,
    Groups g category w = (Ok bs, w) /\
    map Branch.Name bs
    = sort_strings (filter (directoryAt w (Branch.ChildRoot category))
                      (children (Branch.ChildRoot category) (files w))) /\
    forall b, In b bs ->
      GroupBranch g category (Branch.Name b) = Ok b /\
      directoryAt w (Branch.ChildRoot category) (Branch.Name b) = true.
Proof.
  intros Nc Hc HG.
  apply GroupBranch_inv in HG as [ctg [ci [_ B]]].
  pose proof (@listDirs_ok _ _ _ Nc Hc) as L.
  set (ds := sort_strings _) in *.
  set (mk := fun name =>
         Branch.Build (Some category) "group" name
           (path_join (Branch.ChildRoot category) name)
           (Some (BranchInfo.Subdirs (CategoryInfo.group ci)))
           (path_join (path_join (Branch.ChildRoot category) name)
              (BranchInfo.ChildRoot (CategoryInfo.group ci)))).
  exists (map mk ds). split; [|split].
  - unfold Groups, bind. rewrite L.
    apply collect_existing with (root := Branch.ChildRoot category).
    + reflexivity.
    + intros name w0 E. unfold Group. monad. rewrite (B name). fold (mk name).
      simpl. destruct (assoc _ (files w0)); [reflexivity | congruence].
    + intros name I. eapply In_listed_directory; eauto.
  - rewrite map_map. simpl. apply map_id.
  - intros b I. apply in_map_iff in I as [name [<- I]]. simpl. split.
    + apply B.
    + eapply In_listed_directory; eauto.
Qed.

Lemma Units_members (g : Globals) (w : World) (group : Branch.t)
    (m : option string) (probe : string) (ub : Branch.t) :
  Branch.ChildRoot group <> "" ->
  assoc (Branch.ChildRoot group) (files w) = Some (DirNode m) ->
  UnitBranch g group probe = Ok ub ->
  exists bs,
    Units g group w = (Ok bs, w) /\
    map Branch.Name bs
    = sort_strings (filter (directoryAt w (Branch.ChildRoot group))
                      (children (Branch.ChildRoot group) (files w))) /\
    forall b, In b bs ->
      UnitBranch g group (Branch.Name b) = Ok b /\
      directoryAt w (Branch.ChildRoot group) (Branch.Name b) = true.
Proof.
  intros Ng Hg HU.
  apply UnitBranch_inv in HU as [ctg [ci [_ B]]].
  pose proof (@listDirs_ok _ _ _ Ng Hg) as L.
  set (ds := sort_strings _) in *.
  set (mk := fun name =>
         Branch.Build (Some group) "unit" name
           (path_join (Branch.ChildRoot group) name)
           (Some (BranchInfo.Subdirs (CategoryInfo.unit ci)))
           (path_join (path_join (Branch.ChildRoot group) name)
              (BranchInfo.ChildRoot (CategoryInfo.unit ci)))).
  exists (map mk ds). split; [|split].
  - unfold Units, bind. rewrite L.
    apply collect_existing with (root := Branch.ChildRoot group).
    + reflexivity.
    + intros name w0 E. unfold Unit. monad. rewrite (B name). fold (mk name).
      simpl. destruct (assoc _ (files w0)); [reflexivity | congruence].
    + intros name I. eapply In_listed_directory; eauto.
  - rewrite map_map. simpl. apply map_id.
  - intros b I. apply in_map_iff in I as [name [<- I]]. simpl. split.
    + apply B.
    + eapply In_listed_directory; eauto.
Qed.

(** X2.  [Groups] and [Units] return one branch for each directory
    under the child root, in ascending order of the names, each the
    branch the constructor builds for that name with its directory on
    disk; a listed directory never makes them fail, and the world is
    left as it is. *)
Theorem Groups_Units_list_child_directories
    (g : Globals) (w : World) (category group : Branch.t)
    (m m' : option string) (probe probe' : string) (gb ub : Branch.t) :
  Branch.ChildRoot category <> "" ->
  Branch.ChildRoot group <> "" ->
  assoc (Branch.ChildRoot category) (files w) = Some (DirNode m) ->
  assoc (Branch.ChildRoot group) (files w) = Some (DirNode m') ->
  GroupBranch g category probe = Ok gb ->
  UnitBranch g group probe' = Ok ub ->
  (exists ds bs,
     listDirs (Branch.ChildRoot category) w = (Ok ds, w) /\
     Groups g category w = (Ok bs, w) /\
     map Branch.Name bs = ds /\
     forall b, In b bs ->
       GroupBranch g category (Branch.Name b) = Ok b /\
       directoryAt w (Branch.ChildRoot category) (Branch.Name b) = true) /\
  (exists ds bs,
     listDirs (Branch.ChildRoot group) w = (Ok ds, w) /\
     Units g group w = (Ok bs, w) /\
     map Branch.Name bs = ds /\
     forall b, In b bs ->
       UnitBranch g group (Branch.Name b) = Ok b /\
       directoryAt w (Branch.ChildRoot group) (Branch.Name b) = true).
Proof.
  intros Nc Ng Hc Hg HG HU. split.
  - destruct (@Groups_members _ _ _ _ _ _ Nc Hc HG) as [bs [G [N B]]].
    eexists. exists bs. split; [exact (@listDirs_ok _ _ _ Nc Hc)|]. auto.
  - destruct (@Units_members _ _ _ _ _ _ Ng Hg HU) as [bs [U [N B]]].
    eexists. exists bs. split; [exact (@listDirs_ok _ _ _ Ng Hg)|]. auto.
Qed.

Lemma Groups_Units_list_child_directories_witness :
  exists bs,
    Groups Example.g Example.shot (Example.world Example.tree)
    = (Ok bs, Example.world Example.tree) /\
    map Branch.Name bs = ["g1"].
Proof.
  destruct (@Groups_Units_list_child_directories Example.g
              (Example.world Example.tree) Example.shot Example.g1
              (Some "2775") (Some "2775") "g1" "u1" Example.g1 Example.u1)
    as [[ds [bs [L [G [N _]]]]] _];
    try reflexivity; try discriminate.
  exists bs. split; [exact G|].
  rewrite N. vm_compute in L. now injection L as <-.
Defined.

(** ** Parts of a unit *)

Lemma collectCaught_In (A B : Type) (xs : list A) (get : A -> res B) (b : B) :
  In b (collectCaught xs get) <-> exists x, In x xs /\ get x = Ok b.
Proof.
  induction xs as [|x xs IH]; simpl.
  - split; [intros [] | intros [x [[] _]]].
  - destruct (get x) as [b0|e] eqn:G; simpl; rewrite IH; split.
    + intros [<-|[y [I E]]]; [exists x; auto | exists y; auto].
    + intros [y [[<-|I] E]]; [left; congruence | right; eauto].
    + intros [y [I E]]. exists y. auto.
    + intros [y [[<-|I] E]]; [congruence | eauto].
Qed.

Lemma PartBranch_new_name (g : Globals) (parent : Branch.t) (name : string)
    (p : PartBranch.t) :
  PartBranch_new g parent name = Ok p ->
  Branch.Name (PartBranch.branch p) = name.
Proof.
  unfold PartBranch_new, res_bind.
  destruct (categoryInfoOf g _) as [[ctg [ci| |]]|e]; try discriminate.
  destruct (js_get (CategoryInfo.part ci) name); try discriminate;
    now intros [= <-].
Qed.

Lemma collectCaught_names (g : Globals) (this : Branch.t) (ds : list string) :
  map (fun p => Branch.Name (PartBranch.branch p))
      (collectCaught ds (Part g this))
  = filter (fun name => match Part g this name with
                        | Ok _ => true
                        | Throw _ => false
                        end) ds.
Proof.
  induction ds as [|d ds IH]; simpl; [reflexivity|].
  destruct (Part g this d) as [p|e] eqn:P; simpl; [|exact IH].
  rewrite IH. f_equal. now apply PartBranch_new_name in P.
Qed.

Lemma StronglySorted_filter (A : Type) (R : A -> A -> Prop) (f : A -> bool)
    (l : list A) :
  StronglySorted R l -> StronglySorted R (filter f l).
Proof.
  induction 1 as [|x l S IH F]; simpl; [constructor|].
  destruct (f x); [|exact IH]. constructor; [exact IH|].
  rewrite Forall_forall in *. intros y I. apply F.
  now apply filter_In in I.
Qed.

(** The names [PartBranch] accepts under a unit of a declared category:
    the parts the schema declares for the category, and the names every
    object inherits. *)
Lemma Part_accepts (g : Globals) (this c : Branch.t) (ci : CategoryInfo.t)
    (name : string) :
  Branch.Type_ this <> "category" ->
  getParent this "category" = Ok c ->
  js_get (SiteInfo.categories (siteInfo g)) (Branch.Name c) = Own ci ->
  (exists p, Part g this name = Ok p) <->
  In name (keys (CategoryInfo.part ci)) \/ inherited name = true.
Proof.
  intros Ty Hc Hci. unfold Part, PartBranch_new, categoryInfoOf, res_bind.
  simpl. destruct (String.eqb_spec (Branch.Type_ this) "category");
    [congruence|].
  rewrite Hc, Hci. unfold js_get.
  destruct (assoc name (CategoryInfo.part ci)) as [pi|] eqn:E.
  - split; [|eauto]. intros _. left.
    apply assoc_In in E. change name with (fst (name, pi)). now apply in_map.
  - apply assoc_None in E. destruct (inherited name); split; eauto.
    + intros [p H]. discriminate H.
    + intros [I|H]; [contradiction | discriminate].
Qed.

(** X3.  [Parts] never fails on the content of the directory it lists:
    it returns, in ascending order of the names, one part for each
    directory under the child root whose name the constructor accepts,
    passes over the others, and leaves the world as it is.  Under a unit
    of a declared category the names kept are the parts the schema
    declares for the category, and the names every object inherits. *)
Theorem Parts_skips_unknown_directories
    (g : Globals) (w : World) (this : Branch.t) (m : option string) :
  Branch.ChildRoot this <> "" ->
  assoc (Branch.ChildRoot this) (files w) = Some (DirNode m) ->
  exists ps,
    Parts g this w = (Ok ps, w) /\
    StronglySorted (fun a b => str_le a b = true)
      (map (fun p => Branch.Name (PartBranch.branch p)) ps) /\
    (forall p,
       In p ps <->
       exists name,
         In name (children (Branch.ChildRoot this) (files w)) /\
         directoryAt w (Branch.ChildRoot this) name = true /\
         Part g this name = Ok p) /\
    (forall c ci,
       Branch.Type_ this <> "category" ->
       getParent this "category" = Ok c ->
       js_get (SiteInfo.categories (siteInfo g)) (Branch.Name c) = Own ci ->
       forall name,
         In name (map (fun p => Branch.Name (PartBranch.branch p)) ps) <->
         In name (children (Branch.ChildRoot this) (files w)) /\
         directoryAt w (Branch.ChildRoot this) name = true /\
         (In name (keys (CategoryInfo.part ci)) \/ inherited name = true)).
Proof.
  intros Nd Hd. pose proof (@listDirs_ok _ _ _ Nd Hd) as L.
  set (ds := sort_strings _) in L.
  assert (Hds : forall name,
            In name ds <->
            In name (children (Branch.ChildRoot this) (files w)) /\
            directoryAt w (Branch.ChildRoot this) name = true).
  { intros name. unfold ds. rewrite sort_strings_In, filter_In. tauto. }
  exists (collectCaught ds (Part g this)).
  split; [unfold Parts, bind; now rewrite L|].
  split; [|split].
  - rewrite collectCaught_names. apply StronglySorted_filter.
    apply sort_strings_sorted.
  - intros p. rewrite collectCaught_In. split.
    + intros [name [I P]]. exists name. apply Hds in I. tauto.
    + intros [name [I [D P]]]. exists name. split; [apply Hds; tauto | exact P].
  - intros c ci Ty Hc Hci name.
    rewrite collectCaught_names, filter_In, Hds.
    rewrite <- (@Part_accepts g this c ci name Ty Hc Hci).
    destruct (Part g this name) as [p|e]; split.
    + intros [[I D] _]. eauto.
    + intros [I [D _]]. auto.
    + intros [_ H]. discriminate H.
    + intros [_ [_ [p H]]]. discriminate H.
Qed.

Lemma Parts_skips_unknown_directories_witness :
  exists ps,
    Parts Example.g Example.u1 Example.partsWorld
    = (Ok ps, Example.partsWorld) /\
    map (fun p => Branch.Name (PartBranch.branch p)) ps = ["comp"; "toString"].
Proof.
  destruct (@Parts_skips_unknown_directories Example.g Example.partsWorld
              Example.u1 (Some "2775"))
    as [ps [P _]]; [discriminate | reflexivity |].
  exists ps. split; [exact P|].
  vm_compute in P. now injection P as <-.
Defined.

(** ** Categories of a show *)

Lemma categoriesOf_ok (g : Globals) (this : Branch.t) (names : list string) :
  (forall c, In c names -> In c (ValidCategories g)) ->
  categoriesOf g this names
  = Ok (map (fun c =>
               Branch.Build (Some this) "category" c
                 (path_join (Branch.ChildRoot this) c)
                 (Some (BranchInfo.Subdirs (SiteInfo.category (siteInfo g))))
                 (path_join (path_join (Branch.ChildRoot this) c)
                    (BranchInfo.ChildRoot (SiteInfo.category (siteInfo g)))))
            names).
Proof.
  induction names as [|c names IH]; intros H; simpl; [reflexivity|].
  unfold res_bind, Category, CategoryBranch.
  assert (E : existsb (String.eqb c) (ValidCategories g) = true).
  { apply existsb_exists. exists c. split;
      [apply H; now left | apply String.eqb_refl]. }
  rewrite E. simpl.
  rewrite IH by (intros c' I; apply H; now right). reflexivity.
Qed.

(** X4.  [Categories] returns one branch for each category the schema
    declares, in ascending order of the names, each the branch
    [Category] returns for that name, placed under the child root of
    the show.  It reads the schema only: it cannot fail, and a category
    is returned whether or not its directory is on disk. *)
Theorem Categories_lists_declared_categories (g : Globals) (this : Branch.t) :
  exists bs,
    Categories g this = Ok bs /\
    map Branch.Name bs = ValidCategories g /\
    StronglySorted (fun a b => str_le a b = true) (map Branch.Name bs) /\
    (forall name,
       In name (map Branch.Name bs) <->
       In name (keys (SiteInfo.categories (siteInfo g)))) /\
    (forall b, In b bs ->
       Category g this (Branch.Name b) = Ok b /\
       Branch.Parent b = Some this /\
       Branch.Dir b = path_join (Branch.ChildRoot this) (Branch.Name b)).
Proof.
  eexists. split; [apply categoriesOf_ok; auto|].
  assert (N : forall (f : string -> Branch.t) l,
            (forall c, Branch.Name (f c) = c) -> map Branch.Name (map f l) = l).
  { intros f l Hf. rewrite map_map. rewrite <- (map_id l) at 2.
    apply map_ext. exact Hf. }
  rewrite N by reflexivity.
  split; [reflexivity|]. split; [apply sort_strings_sorted|]. split.
  - intros name. unfold ValidCategories. apply sort_strings_In.
  - intros b I. apply in_map_iff in I as [c [<- I]]. simpl.
    split; [|split; reflexivity].
    unfold Category, CategoryBranch.
    assert (E : existsb (String.eqb c) (ValidCategories g) = true).
    { apply existsb_exists. exists c. split; [exact I | apply String.eqb_refl]. }
    now rewrite E.
Qed.

(** ** Programs of a part *)

Lemma keys_forIn (A : Type) (o : list (string * A)) (k : string) :
  In k (keys (forIn o)) <-> In k (keys o).
Proof.
  unfold keys. split; apply Permutation_in; apply Permutation_map;
    [apply forIn_perm | apply Permutation_sym, forIn_perm].
Qed.


(** X6.  The part a unit builds for a name carries the programs the
    schema declares for that part: [ValidPrograms], asked with the
    category of the unit and the name of the part, returns the list
    [Programs] returns on the part, and the name is a part [ValidParts]
    lists for the category or a name every object inherits. *)
Theorem ValidPrograms_of_built_part
    (g : Globals) (parent : Branch.t) (name : string) (p : PartBranch.t) :
  PartBranch_new g parent name = Ok p ->
  exists c vps,
    getParent (PartBranch.branch p) "category" = Ok c /\
    ValidPrograms g (Branch.Name c) name = Ok (Programs p) /\
    ValidParts g (Branch.Name c) = Ok vps /\
    (In name vps \/ inherited name = true).
Proof.
  intros H. revert H.
  unfold PartBranch_new, categoryInfoOf, res_bind. simpl.
  destruct (if Branch.Type_ parent =? "category" then Ok parent
            else getParent parent "category") as [c|e] eqn:G; [|discriminate].
  destruct (js_get (SiteInfo.categories (siteInfo g)) (Branch.Name c))
    as [ci| |] eqn:J; try discriminate.
  intros H. exists c, (sort_strings (keys (forIn (CategoryInfo.part ci)))).
  unfold ValidPrograms, ValidParts. rewrite J.
  unfold js_get in *.
  destruct (assoc name (CategoryInfo.part ci)) as [pi|] eqn:E.
  - injection H as <-. simpl. rewrite G.
    split; [reflexivity|]. split; [reflexivity|]. split; [reflexivity|].
    left. apply sort_strings_In, keys_forIn.
    apply assoc_In in E. change name with (fst (name, pi)). now apply in_map.
  - destruct (inherited name) eqn:I; [|discriminate].
    injection H as <-. simpl. rewrite G.
    split; [reflexivity|]. split; [reflexivity|]. split; [reflexivity|].
    now right.
Qed.

Lemma ValidPrograms_of_built_part_witness :
  ValidPrograms Example.g "shot" "comp" = Ok (Programs Example.compPart).
Proof.
  destruct (@ValidPrograms_of_built_part Example.g Example.u1 "comp"
              Example.compPart eq_refl)
    as [c [vps [G [V _]]]].
  injection G as <-. exact V.
Defined.

(** ** Creating a scene *)

(** X7.  [TaskBranch.Create] never runs the create command on a scene
    that is on disk: it raises "scene already exists" and changes
    nothing.  With the scene absent, a program without a create command
    for the platform raises "not supported os" and nothing is launched;
    otherwise exactly one command is run, synchronously, with the scene
    path as its argument, and [Create] returns if and only if the
    command exits with status 0. *)
Theorem Create_never_overwrites
    (g : Globals) (t : TaskBranch.t) (ver : option string) (scene : string)
    (w : World) :
  TaskBranch_Scene t ver = Ok scene ->
  (assoc scene (files w) <> None ->
   TaskBranch_Create g t ver w
   = (Throw (Error ("scene already exists: " ++ scene)), w)) /\
  (forall p,
     assoc scene (files w) = None ->
     TaskBranch.Program t = Own p ->
     js_get (Program.CreateCmd p) (platform g) = Undefined ->
     TaskBranch_Create g t ver w
     = (Throw (Error ("not supported os: " ++ platform g)), w)) /\
  (forall c,
     assoc scene (files w) = None ->
     commandFor g (TaskBranch.Program t) Program.CreateCmd = Ok c ->
     let i := plain (path_join (siteRoot g) c) [scene] in
     let out := runCommand g i (files w) in
     snd (TaskBranch_Create g t ver w)
     = {| files := fst out; launched := launched w ++ [Sync i] |} /\
     (fst (TaskBranch_Create g t ver w) = Ok tt <-> snd out = Exited 0) /\
     (snd out <> Exited 0 ->
      fst (TaskBranch_Create g t ver w) = Throw (ChildProcessError (cmd i)))).
Proof.
  intros HS. split; [|split].
  - intros E. unfold TaskBranch_Create. monad. rewrite HS. simpl.
    destruct (assoc scene (files w)); [reflexivity | congruence].
  - intros p E P C. unfold TaskBranch_Create. monad. rewrite HS. simpl.
    rewrite E, P. simpl. now rewrite C.
  - intros c E C i out. unfold TaskBranch_Create. monad. rewrite HS. simpl.
    rewrite E, C. unfold execFileSync. simpl.
    fold i. fold out. destruct out as [fs' st]. simpl.
    destruct st as [[| |]| |]; simpl;
      (split; [reflexivity|]; split; [split; [intros H|intros H]|intros H]);
      try reflexivity; try discriminate H; congruence.
Qed.

Lemma Create_never_overwrites_witness :
  TaskBranch_Create Example.g (Example.mainTask []) (Some "v002") Example.studio
  = (Throw (Error "scene already exists: /shows/sh01/shot/g1/u1/work/comp/scenes/sh01_g1_u1_comp_main_v002.nk"),
     Example.studio).
Proof.
  destruct (@Create_never_overwrites Example.g (Example.mainTask [])
              (Some "v002")
              "/shows/sh01/shot/g1/u1/work/comp/scenes/sh01_g1_u1_comp_main_v002.nk"
              Example.studio eq_refl) as [H _].
  apply H. discriminate.
Defined.

(** ** Create, then Get and list *)

Lemma path_join_empty (a : string) : a <> "" -> path_join a "" = a.
Proof.
  intros N. unfold path_join. simpl.
  destruct (String.eqb_spec a ""); [congruence | reflexivity].
Qed.

Lemma GroupBranch_name_dir (g : Globals) (this : Branch.t) (name : string)
    (b : Branch.t) :
  GroupBranch g this name = Ok b ->
  Branch.Name b = name /\
  Branch.Dir b = path_join (Branch.ChildRoot this) name.
Proof.
  intros H. destruct (GroupBranch_inv _ _ _ H) as [ctg [ci [_ B]]].
  rewrite (B name) in H. injection H as <-. split; reflexivity.
Qed.

(** X8.  Create and the reads agree.  When the schema lists the
    directory of the group itself among its entries (an entry with an
    empty name), a [CreateGroup] that returns is followed by a [Group]
    that returns the branch of that name, and [Groups] lists it. *)
Theorem CreateGroup_then_Group_and_Groups
    (g : Globals) (category grp : Branch.t) (name perm : string)
    (ds : list Dir.t) (m : option string) (w w' : World) :
  platform g <> "win32" ->
  Branch.ChildRoot category <> "" ->
  name <> "" ->
  contains_char "/" name = false ->
  assoc (Branch.ChildRoot category) (files w) = Some (DirNode m) ->
  GroupBranch g category name = Ok grp ->
  Branch.Subdirs grp = Some ds ->
  In {| Dir.Name := ""; Dir.Perm := perm |} ds ->
  CreateGroup g category name w = (Ok tt, w') ->
  Group g category name w' = (Ok grp, w') /\
  exists bs, Groups g category w' = (Ok bs, w') /\ In grp bs.
Proof.
  intros Hp Nc Nn Hs Hc HG Hds Hin HC.
  destruct (GroupBranch_name_dir _ _ _ HG) as [Hn Hd].
  unfold CreateGroup, bind, lift in HC. rewrite HG, Hds in HC. simpl in HC.
  destruct (create_loop_ok g (Branch.Dir grp) ds Hp _ HC) as [H1 [H2 _]].
  specialize (H1 _ Hin). simpl in H1.
  assert (Nd : Branch.Dir grp <> "")
    by (rewrite Hd; apply path_join_not_empty).
  rewrite (path_join_empty Nd) in H1.
  split.
  - unfold Group. monad. rewrite HG. simpl. now rewrite H1.
  - destruct (@Groups_members g w' category m name grp Nc (H2 _ _ Hc) HG)
      as [bs [G [N B]]].
    exists bs. split; [exact G|].
    assert (I : In name (map Branch.Name bs)).
    { rewrite N. apply sort_strings_In. apply filter_In. split.
      - apply children_complete with (n := DirNode (Some perm)); auto.
        apply assoc_In. now rewrite <- Hd.
      - unfold directoryAt. now rewrite <- Hd, H1. }
    apply in_map_iff in I as [b [E I]].
    destruct (B b I) as [Hb _]. rewrite E, HG in Hb.
    injection Hb as <-. exact I.
Qed.

Lemma CreateGroup_then_Group_and_Groups_witness :
  exists w',
    CreateGroup Example.g Example.shot "g2" (Example.world Example.tree)
    = (Ok tt, w') /\
    Group Example.g Example.shot "g2" w'
    = (Ok (Branch.Build (Some Example.shot) "group" "g2" "/shows/sh01/shot/g2"
             (Some [Example.dir "" "2775"]) "/shows/sh01/shot/g2"), w').
Proof.
  eexists. split; [vm_compute; reflexivity|].
  apply (@CreateGroup_then_Group_and_Groups Example.g Example.shot
           (Branch.Build (Some Example.shot) "group" "g2" "/shows/sh01/shot/g2"
              (Some [Example.dir "" "2775"]) "/shows/sh01/shot/g2")
           "g2" "2775" [Example.dir "" "2775"] (Some "2775")
           (Example.world Example.tree));
    try reflexivity; try discriminate.
  now left.
Defined.

(** ** What a schema that loads has *)

Lemma res_bind_ok (A B : Type) (r : res A) (k : A -> res B) (b : B) :
  res_bind r k = Ok b -> exists a, r = Ok a /\ k a = Ok b.
Proof. destruct r as [a|e]; simpl; [eauto | discriminate]. Qed.

Lemma forEachRes_ok (A : Type) (xs : list A) (body : A -> res unit) :
  forEachRes xs body = Ok tt -> forall x, In x xs -> body x = Ok tt.
Proof.
  induction xs as [|x0 xs IH]; simpl; [now intros _ ? []|].
  intros H. apply res_bind_ok in H as [[] [H0 H]].
  intros x [<-|I]; [exact H0 | now apply IH].
Qed.

Lemma mustHaveAttrs_has (label : string) (obj : json) (attrs : list string) :
  mustHaveAttrs label obj attrs = Ok tt ->
  forall a, In a attrs -> has_attr a obj = Ok true.
Proof.
  induction attrs as [|a0 attrs IH]; simpl; [now intros _ ? []|].
  intros H. apply res_bind_ok in H as [has [H0 H]].
  destruct has; simpl in H; [|discriminate].
  intros a [<-|I]; [exact H0 | now apply IH].
Qed.

Lemma validateDir_ok (label : string) (d : json) :
  validateDir label d = Ok tt -> dirChecked d.
Proof.
  unfold validateDir. intros H. apply res_bind_ok in H as [[] [H0 H]].
  split; [apply (mustHaveAttrs_has _ _ _ H0); now left|].
  destruct (attr "Perm" d) as [[| | |perm| |]|]; try discriminate.
  exists perm. split; [reflexivity|].
  destruct (Nat.eqb_spec (String.length perm) 4); [assumption | discriminate].
Qed.

Lemma validateBranchInfo_ok (label : string) (info : option json) :
  validateBranchInfo label info = Ok tt ->
  exists i, info = Some i /\ branchChecked i.
Proof.
  unfold validateBranchInfo. destruct info as [i|]; [|discriminate].
  intros H. exists i. split; [reflexivity|].
  apply res_bind_ok in H as [[] [H0 H]].
  apply res_bind_ok in H as [ds [H1 H]].
  split; [exact (mustHaveAttrs_has _ _ _ H0)|].
  exists ds. split; [exact H1|].
  intros d I. apply validateDir_ok with (label := label).
  now apply (forEachRes_ok _ _ H).
Qed.

(** X9.  A schema document [validateSiteInfo] accepts has the
    descriptions of the show and category levels, and of the group and
    unit levels of every category, each with its label, entries and
    child root, and every entry of those levels has a name and a
    permission that is a string of four characters; every part has its
    label, entries and program directories, and every program its name,
    extension and two command tables. *)
Theorem validateSiteInfo_sound (info : json) :
  validateSiteInfo info = Ok tt ->
  (exists show category,
     attr "show" info = Some show /\ branchChecked show /\
     attr "category" info = Some category /\ branchChecked category) /\
  (forall ctg ctgInfo,
     In (ctg, ctgInfo) (enumerate (attr "categories" info)) ->
     (exists group unit,
        attr "group" ctgInfo = Some group /\ branchChecked group /\
        attr "unit" ctgInfo = Some unit /\ branchChecked unit) /\
     forall part partInfo,
       In (part, partInfo) (enumerate (attr "part" ctgInfo)) ->
       forall a, In a ["Label"; "Subdirs"; "ProgramDir"] ->
                 has_attr a partInfo = Ok true) /\
  (forall name p,
     In (name, p) (enumerate (attr "programs" info)) ->
     forall a, In a ["Name"; "Ext"; "CreateCmd"; "OpenCmd"] ->
               has_attr a p = Ok true).
Proof.
  unfold validateSiteInfo. intros H.
  apply res_bind_ok in H as [[] [_ H]].
  apply res_bind_ok in H as [[] [Hs H]].
  apply res_bind_ok in H as [[] [Hc H]].
  apply res_bind_ok in H as [[] [Hcs Hp]].
  apply validateBranchInfo_ok in Hs as [show [Es Bs]].
  apply validateBranchInfo_ok in Hc as [category [Ec Bc]].
  split; [exists show, category; auto|]. split.
  - intros ctg ctgInfo I.
    pose proof (forEachRes_ok _ _ Hcs _ I) as H. simpl in H.
    apply res_bind_ok in H as [[] [_ H]].
    apply res_bind_ok in H as [[] [Hg H]].
    apply res_bind_ok in H as [[] [Hu H]].
    apply validateBranchInfo_ok in Hg as [group [Eg Bg]].
    apply validateBranchInfo_ok in Hu as [unit [Eu Bu]].
    split; [exists group, unit; auto|].
    intros part partInfo Ip.
    pose proof (forEachRes_ok _ _ H _ Ip) as Hpi. simpl in Hpi.
    exact (mustHaveAttrs_has _ _ _ Hpi).
  - intros name p I.
    pose proof (forEachRes_ok _ _ Hp _ I) as H. simpl in H.
    exact (mustHaveAttrs_has _ _ _ H).
Qed.

Lemma validateSiteInfo_sound_witness :
  exists unit,
    attr "unit" (JObj [ ("group", Example.jbranch "sequence" [Example.jdir "" "2775"] "");
                        ("unit", Example.jbranch "shot" [Example.jdir "work" "2775"] "work");
                        ("part", JObj [ ("comp", JObj [ ("Label", JStr "comp");
                                                          ("Subdirs", JArr [Example.jdir "scenes" "775"]);
                                                          ("ProgramDir", JObj [("nuke", JStr "scenes")]) ]) ]) ])
    = Some unit /\ branchChecked unit.
Proof.
  destruct (@validateSiteInfo_sound (Example.siteJson "2775" "775") eq_refl)
    as [_ [H _]].
  destruct (H "shot" _ (or_introl eq_refl)) as [[group [unit [_ [_ [Eu Bu]]]]] _].
  exists unit. split; [exact Eu | exact Bu].
Defined.

(** ** Queries on the schema *)

(** X10.  The three queries on a category agree on what a category is.
    For a category the schema declares, [CategoryLabel] returns the
    label of its unit level, [ValidParts] the names of its parts in
    ascending order, and [ValidPrograms] returns a sorted list for each
    of those parts.  For a name that is neither declared nor inherited
    by every object, all three raise "unknown category". *)
Theorem category_queries_agree (g : Globals) (ctg : string) :
  (forall ci,
     assoc ctg (SiteInfo.categories (siteInfo g)) = Some ci ->
     In ctg (ValidCategories g) /\
     CategoryLabel g ctg = Ok (BranchInfo.Label (CategoryInfo.unit ci)) /\
     exists ps,
       ValidParts g ctg = Ok ps /\
       StronglySorted (fun a b => str_le a b = true) ps /\
       (forall part, In part ps <-> In part (keys (CategoryInfo.part ci))) /\
       forall part, In part ps ->
         exists progs,
           ValidPrograms g ctg part = Ok progs /\
           StronglySorted (fun a b => str_le a b = true) progs) /\
  (~ In ctg (ValidCategories g) -> inherited ctg = false ->
   CategoryLabel g ctg = Throw (Error ("unknown category: " ++ ctg)) /\
   ValidParts g ctg = Throw (Error ("unknown category: " ++ ctg)) /\
   forall part,
     ValidPrograms g ctg part = Throw (Error ("unknown category: " ++ ctg))).
Proof.
  unfold CategoryLabel, ValidParts, ValidPrograms, ValidCategories, js_get.
  split.
  - intros ci E. rewrite E. split.
    { apply sort_strings_In. apply assoc_In in E.
      change ctg with (fst (ctg, ci)). now apply in_map. }
    split; [reflexivity|]. eexists. split; [reflexivity|].
    split; [apply sort_strings_sorted|]. split.
    + intros part. now rewrite sort_strings_In, keys_forIn.
    + intros part I. apply (proj1 (sort_strings_In _ _)) in I.
      apply (proj1 (keys_forIn _ _)) in I.
      apply In_keys_assoc in I as [pi Hpi]. rewrite Hpi.
      eexists. split; [reflexivity | apply sort_strings_sorted].
  - intros N I. rewrite sort_strings_In in N. apply assoc_None in N.
    rewrite N, I. repeat split.
Qed.

(** ** The hard-coded model *)

Lemma children_not_empty (d : string) (fs : FS) (f : string) :
  In f (children d fs) -> f <> "".
Proof.
  induction fs as [|[p n] fs IH]; simpl; [now intros []|].
  unfold child_name at 1.
  destruct (startsWith p (d ++ "/")); [|exact IH].
  destruct (String.eqb_spec (substringFrom (String.length d + 1) p) "") as [E|N];
    simpl; [exact IH|].
  destruct (contains_char "/" _); [exact IH|].
  intros [<-|I]; [exact N | now apply IH].
Qed.

Lemma legacy_path (d f : string) :
  d <> "" -> f <> "" -> (d ++ "/" ++ f)%string = path_join d f.
Proof.
  intros Nd Nf. unfold path_join.
  destruct (String.eqb_spec f ""); [congruence|].
  destruct (String.eqb_spec d ""); [congruence | reflexivity].
Qed.

Lemma keepDirs_ok (d : string) (w : World) (fs : list string) :
  d <> "" ->
  (forall f, In f fs -> f <> "" /\
             exists n, assoc (path_join d f) (files w) = Some n) ->
  forall cds,
    Legacy.keepDirs d fs cds w = (Ok (cds ++ filter (directoryAt w d) fs), w).
Proof.
  intros Nd. induction fs as [|f fs IH]; intros H cds; simpl.
  - now rewrite app_nil_r.
  - monad. destruct (H f (or_introl eq_refl)) as [Nf [n Hn]].
    change (String.append d (String "/" f)) with (d ++ "/" ++ f)%string.
    rewrite (legacy_path Nd Nf).
    unfold directoryAt at 1. rewrite Hn.
    rewrite IH by (intros f' I; apply H; now right).
    destruct n; simpl; try reflexivity. now rewrite <- app_assoc.
Qed.

(** X11.  [childDirs] of the hard-coded model returns the entries of a
    directory that are directories, in the order the directory lists
    them (it does not sort, unlike [listDirs]), and leaves the world as
    it is; on a path that is not on disk it raises an error. *)
Theorem childDirs_keeps_listing_order
    (d : string) (w : World) (m : option string) :
  d <> "" ->
  assoc d (files w) = Some (DirNode m) ->
  Legacy.childDirs d w
  = (Ok (filter (directoryAt w d) (children d (files w))), w) /\
  (exists ds, listDirs d w = (Ok ds, w) /\
              Permutation ds (filter (directoryAt w d) (children d (files w)))) /\
  (forall w0, assoc d (files w0) = None ->
              exists msg, Legacy.childDirs d w0 = (Throw (Error msg), w0)).
Proof.
  intros Nd Hd. split; [|split].
  - unfold Legacy.childDirs. monad. rewrite Hd. simpl. rewrite Hd.
    rewrite keepDirs_ok; [reflexivity | exact Nd |].
    intros f I. split; [now apply children_not_empty in I|].
    eapply children_exist; eauto. apply incl_refl.
  - eexists. split; [exact (@listDirs_ok _ _ _ Nd Hd)|].
    apply Permutation_sym, sort_by_perm.
  - intros w0 H0. eexists. unfold Legacy.childDirs. monad. now rewrite H0.
Qed.

Lemma childDirs_keeps_listing_order_witness :
  Legacy.childDirs "/shows/sh01" (Example.world (rev Example.tree))
  = (Ok ["shot"; "asset"], Example.world (rev Example.tree)).
Proof.
  destruct (@childDirs_keeps_listing_order "/shows/sh01"
              (Example.world (rev Example.tree)) (Some "0755"))
    as [H _]; [discriminate | reflexivity |].
  rewrite H. reflexivity.
Defined.

(** X12.  [CreateTask] of the hard-coded model launches nothing unless
    the part is a directory under the part root of the unit and the
    task and program names are given: in each of these cases it raises
    an error and leaves the world as it is. *)
Theorem legacy_CreateTask_guards
    (projectRoot : string) (lenv : list (string * string))
    (this : Legacy.Category.t) (prj grp unit part task prog : string)
    (ver : option string) (parts : list string) (w : World) :
  fst (Legacy.PartsOf this prj grp unit w) = Ok parts ->
  (~ In part parts \/ task = "" \/ prog = "") ->
  exists msg,
    Legacy.CreateTask projectRoot lenv this prj grp unit part task ver prog w
    = (Throw (Error msg), w).
Proof.
  intros Hparts Hbad. unfold Legacy.CreateTask. monad.
  pose proof (childDirs_world (Legacy.Category.partRoot this prj grp unit) w) as Sw.
  unfold Legacy.PartsOf in *.
  destruct (Legacy.childDirs _ w) as [r w1]. simpl in Hparts, Sw. subst r w1.
  destruct (existsb (String.eqb part) parts) eqn:E; simpl; [|eauto].
  destruct (String.eqb_spec (Legacy.PartDir this prj grp unit part) "");
    [eauto|].
  destruct (String.eqb_spec task ""); [eauto|].
  destruct (String.eqb_spec prog ""); [eauto|].
  exfalso. destruct Hbad as [N|[T|P]]; try congruence.
  apply N. apply existsb_exists in E as [x [I X]].
  apply String.eqb_eq in X. now subst x.
Qed.

Lemma legacy_CreateTask_guards_witness :
  exists msg,
    Legacy.CreateTask "/site/project" [] Example.legacyShot
      "prj1" "g1" "u1" "fx" "main" (Some "v001") "houdini" Example.legacyWorld
    = (Throw (Error msg), Example.legacyWorld).
Proof.
  apply (@legacy_CreateTask_guards "/site/project" [] Example.legacyShot
           "prj1" "g1" "u1" "fx" "main" "houdini" (Some "v001") ["comp"]
           Example.legacyWorld); [reflexivity|].
  left. intros [E|[]]. discriminate E.
Defined.
